(** * thinkback: the turn procedure and the conversation page

  A shallow embedding of the two source files of the repository:

  - [src/server/api/routers/debate.ts]: the module initialisation (the two
    API-key checks), the helpers [getFalTtsAudioUrl] and [getGroqResponse]
    and the [sendTurn] procedure with its markdown stripping;
  - the page component ([HomePage]): its React state, the speech
    recognition callbacks, [handleMicClick], [handleUserTurnEnd], the
    mutation callbacks and the audio effect.

  JavaScript strings are sequences of UTF-16 code units; they are modelled
  as lists of code units. *)

From Stdlib Require Import List NArith Bool Arith Lia String Ascii.
Import ListNotations.

(* ===================================================================== *)
(** ** JavaScript strings *)
(* ===================================================================== *)

Module Js.

(** A string is a list of UTF-16 code units. *)
Definition JsString := list N.

(** An ASCII literal of the source, as a [JsString]. *)
Definition lit (s : string) : JsString :=
  map N_of_ascii (list_ascii_of_string s).
Arguments lit : simpl never.

(** The code units the source names explicitly. *)
Definition TAB : N := 9.
Definition LF : N := 10.
Definition CR : N := 13.
Definition SPACE : N := 32.
Definition HASH : N := 35.       (* # *)
Definition LPAREN : N := 40.     (* ( *)
Definition RPAREN : N := 41.     (* ) *)
Definition STAR : N := 42.       (* * *)
Definition LBRACKET : N := 91.   (* [ *)
Definition RBRACKET : N := 93.   (* ] *)
Definition UNDERSCORE : N := 95. (* _ *)
Definition BACKTICK : N := 96.   (* ` *)

(** Truthiness of a string: every string but the empty one. *)
Definition truthy (s : JsString) : bool :=
  match s with [] => false | _ :: _ => true end.

(** Truthiness of [string | null | undefined]. *)
Definition truthyOpt (s : option JsString) : bool :=
  match s with Some s => truthy s | None => false end.

(** [a || b] on strings. *)
Definition orElse (a : option JsString) (b : JsString) : JsString :=
  match a with
  | Some s => if truthy s then s else b
  | None => b
  end.

Definition eqb (a b : JsString) : bool :=
  if list_eq_dec N.eq_dec a b then true else false.

(** [s.startsWith(p)]. *)
Fixpoint startsWith (s p : JsString) : bool :=
  match p, s with
  | [], _ => true
  | _ :: _, [] => false
  | x :: p', y :: s' => (x =? y)%N && startsWith s' p'
  end.

(** ECMAScript LineTerminator: LF, CR, U+2028, U+2029. *)
Definition isLineTerminator (c : N) : bool :=
  ((c =? 10) || (c =? 13) || (c =? 8232) || (c =? 8233))%N.

(** ECMAScript WhiteSpace: TAB, VT, FF, U+FEFF and the Unicode category
    Zs (SP, NBSP, U+1680, U+2000..U+200A, U+202F, U+205F, U+3000). *)
Definition isWhiteSpace (c : N) : bool :=
  ((c =? 9) || (c =? 11) || (c =? 12) || (c =? 32) || (c =? 160)
   || (c =? 5760) || ((8192 <=? c) && (c <=? 8202))
   || (c =? 8239) || (c =? 8287) || (c =? 12288) || (c =? 65279))%N.

(** What [String.prototype.trim] strips at both ends. *)
Definition isTrimmed (c : N) : bool :=
  isWhiteSpace c || isLineTerminator c.

Fixpoint dropWhile (p : N -> bool) (s : JsString) : JsString :=
  match s with
  | [] => []
  | c :: t => if p c then dropWhile p t else s
  end.

Definition trimStart (s : JsString) : JsString := dropWhile isTrimmed s.
Definition trimEnd (s : JsString) : JsString :=
  rev (dropWhile isTrimmed (rev s)).

(** [s.trim()]. *)
Definition trim (s : JsString) : JsString := trimEnd (trimStart s).

End Js.

Import Js.

(* ===================================================================== *)
(** ** Regular expressions, as far as the source uses them *)
(* ===================================================================== *)

Module Regex.

(** A character class: [[abc]] or [[^abc]]. *)
Inductive CharClass :=
| OneOf (cs : list N)
| NoneOf (cs : list N).

Definition mem (c : N) (cs : list N) : bool := existsb (N.eqb c) cs.

Definition inClass (k : CharClass) (c : N) : bool :=
  match k with
  | OneOf cs => mem c cs
  | NoneOf cs => negb (mem c cs)
  end.

(** The fragment of the regular-expression syntax that occurs in
    [sendTurn]: literal characters, classes, a greedy repetition of a
    class ([k*] is [Many 0 k], [k+] is [Many 1 k]), one capturing group,
    the line-start assertion of the [m] flag, and concatenation. *)
Inductive Re :=
| Chr (c : N)
| Cls (k : CharClass)
| Many (least : nat) (k : CharClass)
| Group (r : Re)
| LineStart
| Seq (r1 r2 : Re).

Infix ";;" := Seq (at level 61, right associativity).

(** One way for a pattern to match at the start of the remaining input. *)
Record Match := {
  matched : JsString;          (* the text consumed *)
  group1 : option JsString;    (* what the group captured *)
  rest : JsString              (* the input after the match *)
}.

(** The longest prefix of [s] inside the class. *)
Fixpoint spanClass (k : CharClass) (s : JsString) : nat :=
  match s with
  | [] => 0
  | c :: t => if inClass k c then S (spanClass k t) else 0
  end.

(** Greedy repetition with backtracking: the longest run first, then every
    shorter one down to [least]. *)
Fixpoint manyFrom (least n : nat) (s : JsString) : list Match :=
  let here :=
    if least <=? n
    then [ {| matched := firstn n s; group1 := None; rest := skipn n s |} ]
    else [] in
  match n with
  | 0 => here
  | S n' => here ++ manyFrom least n' s
  end.

(** The character before the position reached after consuming [m]. *)
Definition prevAfter (prev : option N) (m : JsString) : option N :=
  match rev m with
  | [] => prev
  | c :: _ => Some c
  end.

Definition orGroup (g1 g2 : option JsString) : option JsString :=
  match g2 with Some _ => g2 | None => g1 end.

(** All the matches of [r] at a position, in the order a backtracking
    matcher tries them; [prev] is the character before the position
    ([None] at the start of the input). *)
Fixpoint matchesAt (r : Re) (prev : option N) (s : JsString) : list Match :=
  match r with
  | Chr c =>
      match s with
      | x :: t =>
          if (x =? c)%N
          then [ {| matched := [x]; group1 := None; rest := t |} ]
          else []
      | [] => []
      end
  | Cls k =>
      match s with
      | x :: t =>
          if inClass k x
          then [ {| matched := [x]; group1 := None; rest := t |} ]
          else []
      | [] => []
      end
  | Many least k => manyFrom least (spanClass k s) s
  | Group r' =>
      map (fun m => {| matched := matched m;
                       group1 := Some (matched m);
                       rest := rest m |})
          (matchesAt r' prev s)
  | LineStart =>
      match prev with
      | None => [ {| matched := []; group1 := None; rest := s |} ]
      | Some c =>
          if isLineTerminator c
          then [ {| matched := []; group1 := None; rest := s |} ]
          else []
      end
  | Seq r1 r2 =>
      flat_map
        (fun m1 =>
           map (fun m2 => {| matched := matched m1 ++ matched m2;
                             group1 := orGroup (group1 m1) (group1 m2);
                             rest := rest m2 |})
               (matchesAt r2 (prevAfter prev (matched m1)) (rest m1)))
        (matchesAt r1 prev s)
  end.

(** The match the engine reports at a position: the first one. *)
Definition execAt (r : Re) (prev : option N) (s : JsString) : option Match :=
  hd_error (matchesAt r prev s).

(** The replacement strings of the source: ['$1'] and ['']. *)
Inductive Replacement := Dollar1 | Nothing.

Definition expand (p : Replacement) (m : Match) : JsString :=
  match p with
  | Dollar1 => match group1 m with Some g => g | None => [] end
  | Nothing => []
  end.

(** [s.replace(/r/g, p)]: scan from the left; at each position not inside
    an earlier match, take the match found there, emit its replacement and
    go on after it (one character further when the match is empty);
    characters outside matches are copied.  [skip] counts the characters
    of the current match still to pass over. *)
Fixpoint replaceFrom (r : Re) (p : Replacement)
         (skip : nat) (prev : option N) (s : JsString) : JsString :=
  match s with
  | [] =>
      match skip, execAt r prev [] with
      | 0, Some m => expand p m
      | _, _ => []
      end
  | c :: t =>
      match skip with
      | S k => replaceFrom r p k (Some c) t
      | 0 =>
          match execAt r prev s with
          | Some m =>
              expand p m ++
              match matched m with
              | [] => c :: replaceFrom r p 0 (Some c) t
              | _ :: m' => replaceFrom r p (List.length m') (Some c) t
              end
          | None => c :: replaceFrom r p 0 (Some c) t
          end
      end
  end.

Definition replaceAll (r : Re) (p : Replacement) (s : JsString) : JsString :=
  replaceFrom r p 0 None s.

End Regex.

Import Regex.

(* ===================================================================== *)
(** ** The markdown stripping of [sendTurn] *)
(* ===================================================================== *)

Module Markdown.

(** [/\*\*([^*]+)\*\*/g] *)
Definition boldStars : Re :=
  Chr STAR ;; Chr STAR ;; Group (Many 1 (NoneOf [STAR])) ;; Chr STAR ;; Chr STAR.

(** [/\*([^*]+)\*/g] *)
Definition italicStar : Re :=
  Chr STAR ;; Group (Many 1 (NoneOf [STAR])) ;; Chr STAR.

(** [/__([^_]+)__/g] *)
Definition boldUnderscores : Re :=
  Chr UNDERSCORE ;; Chr UNDERSCORE ;; Group (Many 1 (NoneOf [UNDERSCORE]))
  ;; Chr UNDERSCORE ;; Chr UNDERSCORE.

(** [/_([^_]+)_/g] *)
Definition italicUnderscore : Re :=
  Chr UNDERSCORE ;; Group (Many 1 (NoneOf [UNDERSCORE])) ;; Chr UNDERSCORE.

(** [/`([^`]+)`/g] *)
Definition inlineCode : Re :=
  Chr BACKTICK ;; Group (Many 1 (NoneOf [BACKTICK])) ;; Chr BACKTICK.

(** [/```[^`]*```/gs] (the pattern has no dot: the [s] flag changes
    nothing) *)
Definition codeBlock : Re :=
  Chr BACKTICK ;; Chr BACKTICK ;; Chr BACKTICK ;; Many 0 (NoneOf [BACKTICK])
  ;; Chr BACKTICK ;; Chr BACKTICK ;; Chr BACKTICK.

(** [/^[#]+[ \t]/gm] *)
Definition header : Re :=
  LineStart ;; Many 1 (OneOf [HASH]) ;; Cls (OneOf [SPACE; TAB]).

(** [/\[([^\]]+)\]\([^\)]+\)/g] *)
Definition link : Re :=
  Chr LBRACKET ;; Group (Many 1 (NoneOf [RBRACKET])) ;; Chr RBRACKET
  ;; Chr LPAREN ;; Many 1 (NoneOf [RPAREN]) ;; Chr RPAREN.

(** [/[\[\]\(\)*_#`]/g] *)
Definition symbols : Re :=
  Cls (OneOf [LBRACKET; RBRACKET; LPAREN; RPAREN; STAR; UNDERSCORE; HASH;
              BACKTICK]).

(** The chain of [replace] calls, in the order of the source. *)
Definition stripMarkdown (aiTextResponse : JsString) : JsString :=
  let s := replaceAll boldStars Dollar1 aiTextResponse in
  let s := replaceAll italicStar Dollar1 s in
  let s := replaceAll boldUnderscores Dollar1 s in
  let s := replaceAll italicUnderscore Dollar1 s in
  let s := replaceAll inlineCode Dollar1 s in
  let s := replaceAll codeBlock Nothing s in
  let s := replaceAll header Nothing s in
  let s := replaceAll link Dollar1 s in
  replaceAll symbols Nothing s.

End Markdown.

Import Markdown.

(* ===================================================================== *)
(** ** Exceptions, collaborators and the effect monad of the server *)
(* ===================================================================== *)

Module Eff.

(** What a JavaScript computation can throw here. *)
Inductive Exn :=
| Error (message : JsString)   (* [throw new Error(message)] *)
| TypeError                    (* property of null/undefined, call of a non-function *)
| Rejected                     (* a collaborator's promise rejects *)
| BadRequest.                  (* the input schema refuses the input *)

Inductive Result (A : Type) :=
| Ok (a : A)
| Throw (e : Exn).
Arguments Ok {A} a.
Arguments Throw {A} e.

(** The value of [choices[0]?.message?.content] in the parsed body. *)
Inductive Content :=
| ContentAbsent                      (* undefined or null *)
| ContentString (s : JsString)
| ContentOther (truthyValue : bool). (* any other JSON value *)

Record Choice := { message_content : Content }.

(** The parsed body of the chat response ([any] in the source): JSON
    [null], or an object whose [choices] are listed ([[]] when the field is
    missing or empty). *)
Inductive GroqData :=
| DataNull
| DataObject (choices : list Choice).

(** The object [fetch] resolves to. *)
Record HttpResponse := {
  ok : bool;
  statusText : JsString;
  text : Result JsString;     (* [await response.text()] *)
  json : Result GroqData      (* [await response.json()] *)
}.

(** [result.data] of the speech synthesis: without [audio], or with an
    [audio.url] that is a string or not. *)
Inductive FalData :=
| FalNoAudio
| FalAudio (url : option JsString).

(** The two external providers, as seen from the module. *)
Record Providers := {
  fetchGroq : JsString -> Result HttpResponse;   (* by user text *)
  falSubscribe : JsString -> Result FalData      (* by text to speak *)
}.

(** The requests sent out, in order. *)
Inductive Call :=
| GroqRequest (userText : JsString)
| FalRequest (textToSpeak : JsString).

(** A computation talks to the providers, extends the list of requests and
    returns or throws. *)
Definition M (A : Type) : Type :=
  Providers -> list Call -> Result A * list Call.

Definition ret {A} (a : A) : M A := fun _ log => (Ok a, log).

Definition bind {A B} (m : M A) (f : A -> M B) : M B :=
  fun w log =>
    match m w log with
    | (Ok a, log') => f a w log'
    | (Throw e, log') => (Throw e, log')
    end.

Definition throw {A} (e : Exn) : M A := fun _ log => (Throw e, log).

(** [try { body } catch (error) { handler }] *)
Definition tryCatch {A} (body : M A) (handler : Exn -> M A) : M A :=
  fun w log =>
    match body w log with
    | (Ok a, log') => (Ok a, log')
    | (Throw e, log') => handler e w log'
    end.

(** [await p] for a promise already settled with [r]. *)
Definition await {A} (r : Result A) : M A := fun _ log => (r, log).

(** [await fetch(GROQ_API_URL, { ... userText ... })] *)
Definition fetch (userText : JsString) : M HttpResponse :=
  fun w log => (fetchGroq w userText, log ++ [GroqRequest userText]).

(** [await fal.subscribe(model, { input: { text } })] *)
Definition subscribe (textToSpeak : JsString) : M FalData :=
  fun w log => (falSubscribe w textToSpeak, log ++ [FalRequest textToSpeak]).

End Eff.

Import Eff.

Notation "x <- m ;;; k" := (Eff.bind m (fun x => k))
(at level 62, m at next level, right associativity).

(* ===================================================================== *)
(** ** [debate.ts] *)
(* ===================================================================== *)

Module Debate.

(** [env] of [~/env], as far as this module reads it. *)
Record Env := {
  FAL_API_KEY : option JsString;
  GROQ_API_KEY : option JsString
}.

(** The top of the module: both keys are checked when it is loaded. *)
Definition moduleInit (env : Env) : Result unit :=
  if negb (truthyOpt (FAL_API_KEY env))
  then Throw (Error (lit "FAL_API_KEY environment variable is not set."))
  else if negb (truthyOpt (GROQ_API_KEY env))
  then Throw (Error (lit "GROQ_API_KEY environment variable is not set."))
  else Ok tt.

Definition getFalTtsAudioUrl (textToSpeak : JsString) : M (option JsString) :=
  tryCatch
    (data <- subscribe textToSpeak ;;;
     match data with
     | FalNoAudio => throw TypeError          (* [data.audio.url] *)
     | FalAudio (Some url) => ret (Some url)  (* [typeof ... === 'string'] *)
     | FalAudio None => ret None
     end)
    (fun _ => ret None).

Definition getGroqResponse (env : Env) (userText : JsString)
  : M (option JsString) :=
  if negb (truthyOpt (GROQ_API_KEY env))
  then ret (Some (lit "Error: Groq API key not configured."))
  else
    tryCatch
      (response <- fetch userText ;;;
       if negb (ok response)
       then
         _ <- await (text response) ;;;
         ret (Some (lit "Error communicating with Groq API: "
                    ++ statusText response))
       else
         data <- await (json response) ;;;
         match data with
         | DataNull => throw TypeError                 (* [data.choices] *)
         | DataObject [] =>
             ret (Some (lit "No response text found from Groq API."))
         | DataObject (choice :: _) =>
             match message_content choice with
             | ContentString content =>
                 if truthy content
                 then ret (Some (trim content))
                 else ret (Some (lit "No response text found from Groq API."))
             | ContentOther true => throw TypeError    (* [content.trim] *)
             | ContentOther false | ContentAbsent =>
                 ret (Some (lit "No response text found from Groq API."))
             end
         end)
      (fun _ => ret (Some (lit "Error sending request to Groq API."))).

Record Input := { input_text : JsString }.

Record TurnResponse := {
  aiText : JsString;
  audioUrl : option JsString
}.

Definition defaultText : JsString := lit "Sorry, I encountered an error.".
Definition errorPrefix : JsString := lit "Error:".

(** [aiTextResponse && !aiTextResponse.startsWith("Error:")] *)
Definition isUsableReply (aiTextResponse : option JsString) : bool :=
  match aiTextResponse with
  | Some r => truthy r && negb (startsWith r errorPrefix)
  | None => false
  end.

(** [!aiTextResponse || aiTextResponse.startsWith("Error:")] *)
Definition isFailedReply (aiTextResponse : option JsString) : bool :=
  match aiTextResponse with
  | Some r => negb (truthy r) || startsWith r errorPrefix
  | None => true
  end.

(** The text given to the speech synthesis. *)
Definition plainTextForTts (aiTextResponse : option JsString) : JsString :=
  match aiTextResponse with
  | Some r =>
      if isUsableReply aiTextResponse
      then stripMarkdown r
      else orElse aiTextResponse defaultText
  | None => orElse aiTextResponse defaultText
  end.

(** The body of the mutation. *)
Definition sendTurnResolver (env : Env) (input : Input) : M TurnResponse :=
  aiTextResponse <- getGroqResponse env (input_text input) ;;;
  let plain := plainTextForTts aiTextResponse in
  match aiTextResponse with
  | Some r =>
      if isFailedReply aiTextResponse
      then
        url <- getFalTtsAudioUrl plain ;;;
        ret {| aiText := plain; audioUrl := url |}
      else
        url <- getFalTtsAudioUrl plain ;;;
        ret {| aiText := r; audioUrl := url |}
  | None =>
      url <- getFalTtsAudioUrl plain ;;;
      ret {| aiText := plain; audioUrl := url |}
  end.

(** The procedure: the input schema [z.object({ text: z.string().min(1) })]
    in front of the mutation. *)
Definition sendTurn (env : Env) (input : Input) : M TurnResponse :=
  if truthy (input_text input)
  then sendTurnResolver env input
  else throw BadRequest.

Record Router := { router_sendTurn : Input -> M TurnResponse }.

(** Loading the module: the router exists only when the checks pass. *)
Definition loadModule (env : Env) : Result Router :=
  match moduleInit env with
  | Ok _ => Ok {| router_sendTurn := sendTurn env |}
  | Throw e => Throw e
  end.

End Debate.

Import Debate.

(* ===================================================================== *)
(** ** The page component *)
(* ===================================================================== *)

Module Page.

Inductive Speaker := User | Ai.

Record Message := { speaker : Speaker; text : JsString }.

(** The [useState] cells of [HomePage]. *)
Record Hooks := {
  isRecording : bool;
  isAiSpeaking : bool;
  userTranscript : JsString;
  aiResponse : JsString;
  conversation : list Message;
  audioUrl : option JsString;
  isSpeechApiSupported : bool
}.

(** The first render. *)
Definition initialHooks : Hooks := {|
  isRecording := false;
  isAiSpeaking := false;
  userTranscript := [];
  aiResponse := [];
  conversation := [];
  audioUrl := None;
  isSpeechApiSupported := false
|}.

(** A call of a state setter; React queues it until the next render. *)
Inductive Update :=
| SetIsRecording (b : bool)
| SetIsAiSpeaking (b : bool)
| SetUserTranscript (t : JsString)
| SetAiResponse (t : JsString)
| AppendConversation (m : Message)   (* [setConversation(prev => [...prev, m])] *)
| SetAudioUrl (u : option JsString)
| SetIsSpeechApiSupported (b : bool).

Definition applyUpdate (h : Hooks) (u : Update) : Hooks :=
  match u with
  | SetIsRecording b =>
      {| isRecording := b; isAiSpeaking := isAiSpeaking h;
         userTranscript := userTranscript h; aiResponse := aiResponse h;
         conversation := conversation h; audioUrl := audioUrl h;
         isSpeechApiSupported := isSpeechApiSupported h |}
  | SetIsAiSpeaking b =>
      {| isRecording := isRecording h; isAiSpeaking := b;
         userTranscript := userTranscript h; aiResponse := aiResponse h;
         conversation := conversation h; audioUrl := audioUrl h;
         isSpeechApiSupported := isSpeechApiSupported h |}
  | SetUserTranscript t =>
      {| isRecording := isRecording h; isAiSpeaking := isAiSpeaking h;
         userTranscript := t; aiResponse := aiResponse h;
         conversation := conversation h; audioUrl := audioUrl h;
         isSpeechApiSupported := isSpeechApiSupported h |}
  | SetAiResponse t =>
      {| isRecording := isRecording h; isAiSpeaking := isAiSpeaking h;
         userTranscript := userTranscript h; aiResponse := t;
         conversation := conversation h; audioUrl := audioUrl h;
         isSpeechApiSupported := isSpeechApiSupported h |}
  | AppendConversation m =>
      {| isRecording := isRecording h; isAiSpeaking := isAiSpeaking h;
         userTranscript := userTranscript h; aiResponse := aiResponse h;
         conversation := conversation h ++ [m]; audioUrl := audioUrl h;
         isSpeechApiSupported := isSpeechApiSupported h |}
  | SetAudioUrl u =>
      {| isRecording := isRecording h; isAiSpeaking := isAiSpeaking h;
         userTranscript := userTranscript h; aiResponse := aiResponse h;
         conversation := conversation h; audioUrl := u;
         isSpeechApiSupported := isSpeechApiSupported h |}
  | SetIsSpeechApiSupported b =>
      {| isRecording := isRecording h; isAiSpeaking := isAiSpeaking h;
         userTranscript := userTranscript h; aiResponse := aiResponse h;
         conversation := conversation h; audioUrl := audioUrl h;
         isSpeechApiSupported := b |}
  end.

(** A call on an object outside React; it happens at once. *)
Inductive DomCall :=
| RecognitionStart               (* [recognitionRef.current?.start()] *)
| RecognitionStop                (* [recognitionRef.current?.stop()] *)
| AudioPause                     (* [audioPlayerRef.current?.pause()] *)
| AudioRewind                    (* [audioPlayerRef.current!.currentTime = 0] *)
| AudioSetSrc (u : JsString)     (* [audioPlayerRef.current.src = audioUrl] *)
| AudioPlay                      (* [audioPlayerRef.current.play()] *)
| Mutate (t : JsString).         (* [sendTurnMutation.mutate({ text })] *)

(** What a handler does, statement by statement. *)
Inductive Action :=
| Queue (u : Update)
| Call (c : DomCall).

(** The recognition instance built by the mount effect.  Its callbacks are
    closures of the render that ran the effect; [onend] reads that render's
    [isRecording]. *)
Record Recognition := { onend_isRecording : bool }.

(** The component between two events: the rendered state, the recognition
    ref, the calls made so far and the requests already answered (a request
    is numbered by its position among the [Mutate] calls).  The audio
    element is rendered unconditionally, so its ref is attached whenever a
    handler runs. *)
Record State := {
  hooks : Hooks;
  recognitionRef : option Recognition;
  calls : list DomCall;
  settled : list nat
}.

(** The mount effect ([useEffect(..., [])]) after the first render;
    [supported] tells whether the window offers a recognition constructor. *)
Definition mount (supported : bool) : State :=
  let first := initialHooks in
  if supported
  then {| hooks := applyUpdate first (SetIsSpeechApiSupported true);
          recognitionRef := Some {| onend_isRecording := isRecording first |};
          calls := [];
          settled := [] |}
  else {| hooks := applyUpdate first (SetIsSpeechApiSupported false);
          recognitionRef := None;
          calls := [];
          settled := [] |}.

Record SpeechResult := { isFinal : bool; transcript : JsString }.

(** The loop of [onresult]: (interimTranscript, finalTranscript).  Every
    result carries a first alternative with its transcript. *)
Fixpoint transcripts (results : list SpeechResult) : JsString * JsString :=
  match results with
  | [] => ([], [])
  | r :: more =>
      let (interim, final) := transcripts more in
      if isFinal r
      then (interim, transcript r ++ final)
      else (transcript r ++ interim, final)
  end.

Definition finalTranscript (resultIndex : nat) (results : list SpeechResult)
  : JsString :=
  snd (transcripts (skipn resultIndex results)).

Definition interimTranscript (resultIndex : nat) (results : list SpeechResult)
  : JsString :=
  fst (transcripts (skipn resultIndex results)).

Definition handleUserTurnEnd (t : JsString) : list Action :=
  if negb (truthy t) then []
  else [ Queue (AppendConversation {| speaker := User; text := t |});
         Queue (SetUserTranscript []);
         Queue (SetIsAiSpeaking true);
         Queue (SetAiResponse (lit "..."));
         Call (Mutate t) ].

Definition onresult (resultIndex : nat) (results : list SpeechResult)
  : list Action :=
  let interim := interimTranscript resultIndex results in
  let final := finalTranscript resultIndex results in
  Queue (SetUserTranscript (if truthy final then final else interim))
  :: (if truthy final then handleUserTurnEnd (trim final) else []).

Definition onerror : list Action := [ Queue (SetIsRecording false) ].

Definition onend (r : Recognition) : list Action :=
  if onend_isRecording r then [ Queue (SetIsRecording false) ] else [].

Definition handleMicClick (s : State) : list Action :=
  match recognitionRef s with
  | None => []
  | Some _ =>
      if isRecording (hooks s)
      then [ Call RecognitionStop; Queue (SetIsRecording false) ]
      else
        (if isAiSpeaking (hooks s)
         then [ Call AudioPause; Call AudioRewind;
                Queue (SetAudioUrl None); Queue (SetIsAiSpeaking false) ]
         else [])
        ++ [ Queue (SetUserTranscript []); Call RecognitionStart;
             Queue (SetIsRecording true) ]
  end.

Definition onSuccess (data : Debate.TurnResponse) : list Action :=
  [ Queue (SetAiResponse (Debate.aiText data));
    Queue (AppendConversation {| speaker := Ai; text := Debate.aiText data |});
    Queue (SetAudioUrl (Debate.audioUrl data));
    Queue (SetIsAiSpeaking false) ].

Definition errorText : JsString :=
  lit "Error communicating with AI. Please try again.".

Definition onError : list Action :=
  [ Queue (SetAiResponse errorText);
    Queue (AppendConversation {| speaker := Ai; text := errorText |});
    Queue (SetAudioUrl None);
    Queue (SetIsAiSpeaking false) ].

(** [play().then(...)] and [play().catch(...)] of the audio effect. *)
Definition onPlayFulfilled : list Action := [ Queue (SetIsAiSpeaking true) ].
Definition onPlayRejected : list Action :=
  [ Queue (SetIsAiSpeaking false); Queue (SetAudioUrl None) ].

(** [onEnded] and [onError] of the audio element. *)
Definition onAudioEnded : list Action :=
  [ Queue (SetIsAiSpeaking false); Queue (SetAudioUrl None) ].
Definition onAudioError : list Action :=
  [ Queue (SetIsAiSpeaking false); Queue (SetAudioUrl None) ].

(** What can happen to the mounted component. *)
Inductive Event :=
| MicClick
| RecognitionResult (resultIndex : nat) (results : list SpeechResult)
| RecognitionError
| RecognitionEnd
| TurnSuccess (request : nat) (data : Debate.TurnResponse)
| TurnError (request : nat)
| PlayFulfilled
| PlayRejected
| AudioEnded
| AudioError.

(** The handler an event runs.  The recognition callbacks exist only on the
    instance. *)
Definition handle (e : Event) (s : State) : list Action :=
  match e with
  | MicClick => handleMicClick s
  | RecognitionResult i results =>
      match recognitionRef s with Some _ => onresult i results | None => [] end
  | RecognitionError =>
      match recognitionRef s with Some _ => onerror | None => [] end
  | RecognitionEnd =>
      match recognitionRef s with Some r => onend r | None => [] end
  | TurnSuccess _ data => onSuccess data
  | TurnError _ => onError
  | PlayFulfilled => onPlayFulfilled
  | PlayRejected => onPlayRejected
  | AudioEnded => onAudioEnded
  | AudioError => onAudioError
  end.

Definition queued (acts : list Action) : list Update :=
  flat_map (fun a => match a with Queue u => [u] | Call _ => [] end) acts.

Definition called (acts : list Action) : list DomCall :=
  flat_map (fun a => match a with Call c => [c] | Queue _ => [] end) acts.

(** The next render: the queued updates, in order, on the rendered state. *)
Definition render (h : Hooks) (acts : list Action) : Hooks :=
  fold_left applyUpdate (queued acts) h.

Definition optEqb (a b : option JsString) : bool :=
  match a, b with
  | None, None => true
  | Some x, Some y => Js.eqb x y
  | _, _ => false
  end.

(** The effect [useEffect(..., [audioUrl])], run after a render that
    changed [audioUrl]. *)
Definition audioEffect (before after : Hooks) : list DomCall :=
  if optEqb (audioUrl before) (audioUrl after) then []
  else match audioUrl after with
       | Some u => if truthy u then [ AudioSetSrc u; AudioPlay ] else []
       | None => []
       end.

Definition settle (e : Event) (done : list nat) : list nat :=
  match e with
  | TurnSuccess n _ | TurnError n => n :: done
  | _ => done
  end.

(** One event: its handler runs against the rendered state, its calls
    happen, the component renders once with every queued update, and the
    effects of that render run. *)
Definition step (s : State) (e : Event) : State :=
  let acts := handle e s in
  let after := render (hooks s) acts in
  {| hooks := after;
     recognitionRef := recognitionRef s;
     calls := calls s ++ called acts ++ audioEffect (hooks s) after;
     settled := settle e (settled s) |}.

Definition run (s : State) (events : list Event) : State :=
  fold_left step events s.


(** The texts of the requests sent so far. *)
Definition requests (s : State) : list JsString :=
  flat_map (fun c => match c with Mutate t => [t] | _ => [] end) (calls s).

(** [sendTurnMutation.isLoading]: the latest request is not answered. *)
Definition isLoading (s : State) : bool :=
  match List.length (requests s) with
  | 0 => false
  | S latest => negb (existsb (Nat.eqb latest) (settled s))
  end.

(** The [paused] attribute of the audio element, from the calls made on
    it. *)
Definition audioPaused (s : State) : bool :=
  fold_left (fun paused c =>
               match c with
               | AudioPause => true
               | AudioPlay => false
               | _ => paused
               end) (calls s) true.

Inductive TurnPhase := Idle | Listening | AwaitingReply | Speaking.

(** The phase the page shows: the status line reads
    [isRecording ? "Listening..." : isAiSpeaking ? "AI Speaking..." : "Ready"],
    and the bubble shown while [isAiSpeaking] reads "AI is thinking..."
    while the request is loading. *)
Definition phase (s : State) : TurnPhase :=
  if isRecording (hooks s) then Listening
  else if isAiSpeaking (hooks s)
       then (if isLoading s then AwaitingReply else Speaking)
       else Idle.

(** The entries of one speaker. *)
Definition entriesOf (who : Speaker) (c : list Message) : list Message :=
  filter (fun m => match speaker m, who with
                   | User, User | Ai, Ai => true
                   | _, _ => false
                   end) c.

End Page.

(* ===================================================================== *)
(** ** Vocabulary of the statements *)
(* ===================================================================== *)

Module Vocabulary.

(** Both API keys are set (and not empty). *)
Definition configured (env : Env) : bool :=
  truthyOpt (FAL_API_KEY env) && truthyOpt (GROQ_API_KEY env).

(** The speech synthesis gave no audio locator: the call rejected, or the
    result carries no string [audio.url]. *)
Definition synthesisFails (r : Result FalData) : Prop :=
  match r with
  | Ok (FalAudio (Some _)) => False
  | _ => True
  end.

(** The chat call fails entirely, and the error text reported for it: the
    request rejects; the status is not 2xx (the body read or not); the body
    cannot be parsed or is null; the first choice has no content string. *)
Inductive ChatFailure : Result HttpResponse -> JsString -> Prop :=
| NetworkError e :
    ChatFailure (Throw e) (lit "Error sending request to Groq API.")
| BadStatus resp body :
    ok resp = false ->
    text resp = Ok body ->
    ChatFailure (Ok resp)
      (lit "Error communicating with Groq API: " ++ statusText resp)
| NoChoices resp :
    ok resp = true ->
    json resp = Ok (DataObject []) ->
    ChatFailure (Ok resp) (lit "No response text found from Groq API.")
| NoContent resp choice others :
    ok resp = true ->
    json resp = Ok (DataObject (choice :: others)) ->
    message_content choice = ContentAbsent
    \/ message_content choice = ContentString []
    \/ message_content choice = ContentOther false ->
    ChatFailure (Ok resp) (lit "No response text found from Groq API.")
| BadStatusUnread resp e :
    ok resp = false ->
    text resp = Throw e ->
    ChatFailure (Ok resp) (lit "Error sending request to Groq API.")
| Unparsable resp e :
    ok resp = true ->
    json resp = Throw e ->
    ChatFailure (Ok resp) (lit "Error sending request to Groq API.")
| NullBody resp :
    ok resp = true ->
    json resp = Ok DataNull ->
    ChatFailure (Ok resp) (lit "Error sending request to Groq API.")
| ContentNotText resp choice others :
    ok resp = true ->
    json resp = Ok (DataObject (choice :: others)) ->
    message_content choice = ContentOther true ->
    ChatFailure (Ok resp) (lit "Error sending request to Groq API.").

(** The chat call succeeds with the given content string. *)
Inductive ChatSuccess : Result HttpResponse -> JsString -> Prop :=
| Completed resp choice others content :
    ok resp = true ->
    json resp = Ok (DataObject (choice :: others)) ->
    message_content choice = ContentString content ->
    content <> [] ->
    ChatSuccess (Ok resp) content.

(** A response whose first choice carries [content]. *)
Definition completion (content : JsString) : Result HttpResponse :=
  Ok {| ok := true; statusText := lit "OK"; text := Ok [];
        json := Ok (DataObject
                      [ {| message_content := ContentString content |} ]) |}.

(** A response with the given status line and no usable body. *)
Definition refusal (status : JsString) : Result HttpResponse :=
  Ok {| ok := false; statusText := status; text := Ok [];
        json := Throw Rejected |}.

Definition someEnv : Env :=
  {| FAL_API_KEY := Some (lit "fal-key"); GROQ_API_KEY := Some (lit "gsk-key") |}.

(** Providers that answer every chat request with [chat] and every
    synthesis request with [speech]. *)
Definition constantly (chat : Result HttpResponse) (speech : Result FalData)
  : Providers :=
  {| fetchGroq := fun _ => chat; falSubscribe := fun _ => speech |}.

Definition hello : Input := {| input_text := lit "hello" |}.

End Vocabulary.

Import Vocabulary.

Module PageVocabulary.

Import Page.

(** The messages a handler appends to the conversation. *)
Definition appended (acts : list Action) : list Message :=
  flat_map (fun a => match a with
                     | Queue (AppendConversation m) => [m]
                     | _ => []
                     end) acts.

(** The user entry a capture event stands for: one entry with the trimmed
    final transcript when that is not empty, none otherwise. *)
Definition spoken (e : Event) : list Message :=
  match e with
  | RecognitionResult i results =>
      let t := trim (finalTranscript i results) in
      if truthy t then [ {| speaker := User; text := t |} ] else []
  | _ => []
  end.

Definition final (t : JsString) : SpeechResult :=
  {| isFinal := true; transcript := t |}.

(** A turn whose request is still unanswered when the user barges in:
    start capture, final transcript "hi" (the request goes out), end of the
    recognition session, stop capture, start capture again. *)
Definition bargeIn : list Event :=
  [ MicClick; RecognitionResult 0 [final (lit "hi")]; RecognitionEnd;
    MicClick; MicClick ].

Definition lateReply : Debate.TurnResponse :=
  {| Debate.aiText := lit "late"; Debate.audioUrl := Some (lit "u") |}.

(** A state in which a reply is being played: one turn completed and its
    audio started, capture stopped. *)
Definition playing : State :=
  run (mount true)
      [ MicClick; RecognitionResult 0 [final (lit "hi")]; RecognitionEnd;
        MicClick; TurnSuccess 0 lateReply; PlayFulfilled ].



End PageVocabulary.

(* ===================================================================== *)
(** ** What the page shows *)
(* ===================================================================== *)

Module View.

Import Page.

(** The text under the button:
    [!isSpeechApiSupported ? "Voice input not supported" :
     isRecording ? "Listening..." : isAiSpeaking ? "AI Speaking..." : "Ready"] *)
Definition statusLine (s : State) : JsString :=
  if negb (isSpeechApiSupported (hooks s)) then lit "Voice input not supported"
  else if isRecording (hooks s) then lit "Listening..."
  else if isAiSpeaking (hooks s) then lit "AI Speaking..."
  else lit "Ready".

(** The line shown while capturing:
    [isRecording && userTranscript && <div>{userTranscript}...</div>] *)
Definition transcriptPreview (s : State) : option JsString :=
  if isRecording (hooks s) && truthy (userTranscript (hooks s))
  then Some (userTranscript (hooks s) ++ lit "...")
  else None.

(** The bubble shown while [isAiSpeaking]:
    [isLoading ? "AI is thinking..." : audioUrl ? "AI Speaking..." : "..."] *)
Definition aiBubble (s : State) : option JsString :=
  if isAiSpeaking (hooks s)
  then Some (if isLoading s then lit "AI is thinking..."
             else if truthyOpt (audioUrl (hooks s)) then lit "AI Speaking..."
             else lit "...")
  else None.

Inductive Icon := PauseIcon | MicIcon.

(** The button: [disabled={!recognitionRef.current}], and the icon by
    [isRecording]. *)
Record MicButton := { disabled : bool; icon : Icon }.

Definition micButton (s : State) : MicButton :=
  {| disabled := match recognitionRef s with Some _ => false | None => true end;
     icon := if isRecording (hooks s) then PauseIcon else MicIcon |}.

(** The characters the last [replace] of [sendTurn] removes. *)
Definition markdownSymbols : list N :=
  [LBRACKET; RBRACKET; LPAREN; RPAREN; STAR; UNDERSCORE; HASH; BACKTICK].

(** A text without any of them. *)
Definition symbolFree (s : JsString) : Prop :=
  Forall (fun c => Regex.mem c markdownSymbols = false) s.

(** The entry an event adds to the conversation: the user entry of a capture
    event, the reply of an answered request, the fixed error text of a failed
    one. *)
Definition logged (e : Event) : list Message :=
  match e with
  | RecognitionResult _ _ => PageVocabulary.spoken e
  | TurnSuccess _ data => [ {| speaker := Ai; text := Debate.aiText data |} ]
  | TurnError _ => [ {| speaker := Ai; text := errorText |} ]
  | _ => []
  end.

(** Events that can turn capture off. *)
Definition stopsCapture (e : Event) : bool :=
  match e with
  | MicClick | RecognitionError => true
  | _ => false
  end.

(** The recognition callbacks, if any, were built by the first render. *)
Definition builtByFirstRender (s : State) : Prop :=
  match recognitionRef s with
  | Some r => onend_isRecording r = isRecording initialHooks
  | None => True
  end.

(** The texts of the [mutate] calls among some calls. *)
Definition mutations (cs : list DomCall) : list JsString :=
  flat_map (fun c => match c with Mutate t => [t] | _ => [] end) cs.

(** How often [play()] was called. *)
Definition plays (cs : list DomCall) : nat :=
  List.length (filter (fun c => match c with AudioPlay => true | _ => false end) cs).

(** The event is a reply whose audio locator is a non-empty string other
    than the current one. *)
Definition bringsNewAudio (s : State) (e : Event) : bool :=
  match e with
  | TurnSuccess _ data =>
      truthyOpt (Debate.audioUrl data)
      && negb (optEqb (audioUrl (hooks s)) (Debate.audioUrl data))
  | _ => false
  end.

(** A user entry as [handleUserTurnEnd] writes it: not empty, trimmed. *)
Definition wellFormedEntry (m : Message) : Prop :=
  speaker m = User -> text m <> [] /\ trim (text m) = text m.

End View.

(* ===================================================================== *)
(** ** Facts about [debate.ts] *)
(* ===================================================================== *)

Module DebateFacts.

Example trim_probe : trim ([SPACE; LF] ++ lit "a b" ++ [TAB]) = lit "a b".
Proof. reflexivity. Qed.

(** The audio locator the helper returns, by provider answer. *)
Lemma getFalTtsAudioUrl_run (t : JsString) (w : Providers) (log : list Call) :
  exists url,
    getFalTtsAudioUrl t w log = (Ok url, log ++ [FalRequest t])
    /\ (synthesisFails (falSubscribe w t) -> url = None)
    /\ (forall u, falSubscribe w t = Ok (FalAudio (Some u)) -> url = Some u).
Proof.
  unfold getFalTtsAudioUrl, tryCatch, Eff.bind, subscribe, throw, ret.
  destruct (falSubscribe w t) as [[|[u|]]|e]; simpl;
    eexists; (split; [reflexivity|]); split; try tauto;
    intros; congruence.
Qed.

(** The chat helper always resolves to a string. *)
Lemma getGroqResponse_string (env : Env) (t : JsString) (w : Providers)
      (log : list Call) :
  exists reply log',
    getGroqResponse env t w log = (Ok (Some reply), log').
Proof.
  unfold getGroqResponse, tryCatch, Eff.bind, fetch, await, throw, ret.
  destruct (negb (truthyOpt (GROQ_API_KEY env))); [eauto|].
  destruct (fetchGroq w t) as [resp|e]; simpl; [|eauto].
  destruct (ok resp); simpl.
  - destruct (json resp) as [[|[|c cs]]|e]; simpl; eauto.
    destruct (message_content c) as [|s|[|]]; simpl; eauto.
    destruct (truthy s); eauto.
  - destruct (text resp); simpl; eauto.
Qed.

(** The procedure in terms of the reply of the chat helper. *)
Lemma sendTurnResolver_run (env : Env) (input : Input) (w : Providers)
      (log log1 : list Call) (reply : JsString) :
  getGroqResponse env (input_text input) w log = (Ok (Some reply), log1) ->
  exists url,
    sendTurnResolver env input w log
    = (Ok {| aiText := if isFailedReply (Some reply)
                       then plainTextForTts (Some reply) else reply;
             audioUrl := url |},
       log1 ++ [FalRequest (plainTextForTts (Some reply))])
    /\ (synthesisFails (falSubscribe w (plainTextForTts (Some reply)))
        -> url = None)
    /\ (forall u, falSubscribe w (plainTextForTts (Some reply))
                  = Ok (FalAudio (Some u)) -> url = Some u).
Proof.
  intros Hg.
  destruct (getFalTtsAudioUrl_run (plainTextForTts (Some reply)) w log1)
    as (url & Hf & Hnone & Hsome).
  exists url. split; [|split; assumption].
  unfold sendTurnResolver, Eff.bind. rewrite Hg.
  destruct (isFailedReply (Some reply)); rewrite Hf; reflexivity.
Qed.

Lemma getGroqResponse_no_key env t w log :
  truthyOpt (GROQ_API_KEY env) = false ->
  getGroqResponse env t w log
  = (Ok (Some (lit "Error: Groq API key not configured.")), log).
Proof. unfold getGroqResponse. intros ->. reflexivity. Qed.

Lemma getGroqResponse_failure env t w log err :
  truthyOpt (GROQ_API_KEY env) = true ->
  ChatFailure (fetchGroq w t) err ->
  getGroqResponse env t w log = (Ok (Some err), log ++ [GroqRequest t]).
Proof.
  intros Hk Hf.
  unfold getGroqResponse, tryCatch, Eff.bind, fetch, await, throw, ret.
  rewrite Hk. simpl.
  inversion Hf; subst;
    try match goal with H : _ = fetchGroq w t |- _ => rewrite <- H end; simpl;
    repeat match goal with
           | H : ok _ = _ |- _ => rewrite H; clear H; simpl
           | H : text _ = _ |- _ => rewrite H; clear H; simpl
           | H : json _ = _ |- _ => rewrite H; clear H; simpl
           | H : message_content _ = _ |- _ => rewrite H; clear H; simpl
           end; try reflexivity.
  match goal with H : _ \/ _ |- _ => destruct H as [-> | [-> | ->]] end;
    reflexivity.
Qed.

Lemma getGroqResponse_success env t w log content :
  truthyOpt (GROQ_API_KEY env) = true ->
  ChatSuccess (fetchGroq w t) content ->
  getGroqResponse env t w log
  = (Ok (Some (trim content)), log ++ [GroqRequest t]).
Proof.
  intros Hk Hs.
  unfold getGroqResponse, tryCatch, Eff.bind, fetch, await, throw, ret.
  rewrite Hk. simpl.
  inversion Hs; subst.
  try match goal with H : _ = fetchGroq w t |- _ => rewrite <- H end; simpl.
  repeat match goal with
         | H : ok _ = _ |- _ => rewrite H; clear H; simpl
         | H : json _ = _ |- _ => rewrite H; clear H; simpl
         | H : message_content _ = _ |- _ => rewrite H; clear H; simpl
         end.
  destruct content; [congruence|reflexivity].
Qed.

(** The error texts of the chat helper are not failed replies for
    [sendTurn]: none is empty and none starts with "Error:". *)
Lemma failure_text_usable o err :
  ChatFailure o err -> isFailedReply (Some err) = false.
Proof. intros H; destruct H; reflexivity. Qed.

Lemma failure_text_plain o err :
  ChatFailure o err -> plainTextForTts (Some err) = stripMarkdown err.
Proof. intros H; destruct H; reflexivity. Qed.

Lemma configured_keys env :
  configured env = true ->
  truthyOpt (FAL_API_KEY env) = true /\ truthyOpt (GROQ_API_KEY env) = true.
Proof. unfold configured. intros H. apply andb_prop in H. exact H. Qed.

(** What [sendTurn] answers after a chat failure, and what it asks of the
    speech synthesis. *)
Lemma sendTurn_after_failure env input w log err :
  configured env = true ->
  truthy (input_text input) = true ->
  ChatFailure (fetchGroq w (input_text input)) err ->
  exists url,
    sendTurn env input w log
    = (Ok {| aiText := err; audioUrl := url |},
       log ++ [GroqRequest (input_text input); FalRequest (stripMarkdown err)]).
Proof.
  intros Hc Hv Hf. apply configured_keys in Hc as [_ Hk].
  pose proof (getGroqResponse_failure env _ w log err Hk Hf) as Hg.
  destruct (sendTurnResolver_run env input w log _ _ Hg) as (url & Hr & _).
  exists url. unfold sendTurn. rewrite Hv, Hr.
  rewrite (failure_text_usable _ _ Hf), (failure_text_plain _ _ Hf).
  rewrite <- app_assoc. reflexivity.
Qed.

(** Every answer to the chat request is a failure with its error text or a
    success with its content. *)
Lemma chat_outcome_cases o :
  (exists err, ChatFailure o err) \/ (exists content, ChatSuccess o content).
Proof.
  destruct o as [resp|e]; [|left; eexists; apply NetworkError].
  destruct (ok resp) eqn:Hok.
  - destruct (json resp) as [[|[|c cs]]|e] eqn:Hj.
    + left. eexists. apply (NullBody resp Hok Hj).
    + left. eexists. apply (NoChoices resp Hok Hj).
    + destruct (message_content c) as [|content|[|]] eqn:Hc.
      * left. eexists. apply (NoContent resp c cs Hok Hj). tauto.
      * destruct content as [|x content].
        -- left. eexists. apply (NoContent resp c cs Hok Hj). tauto.
        -- right. eexists.
           apply (Completed resp c cs (x :: content) Hok Hj Hc). discriminate.
      * left. eexists. apply (ContentNotText resp c cs Hok Hj Hc).
      * left. eexists. apply (NoContent resp c cs Hok Hj). tauto.
    + left. eexists. apply (Unparsable resp e Hok Hj).
  - destruct (text resp) as [body|e] eqn:Ht.
    + left. eexists. apply (BadStatus resp body Hok Ht).
    + left. eexists. apply (BadStatusUnread resp e Hok Ht).
Qed.

(** **** C3
    Whenever the chat-completion call does not succeed with a content string
    (the request rejects, the status is not 2xx, the body cannot be read or
    parsed, or the content is missing), [sendTurn] returns normally and its
    [aiText] is the fixed fallback string or the error text reported for
    that failure: "Error sending request to Groq API.", "Error communicating
    with Groq API: " followed by the status text, or "No response text found
    from Groq API." (it is in fact always the latter). *)
Theorem sendTurn_chat_failure_text env input w log :
  configured env = true ->
  truthy (input_text input) = true ->
  (forall content, ~ ChatSuccess (fetchGroq w (input_text input)) content) ->
  exists resp log' err,
    sendTurn env input w log = (Ok resp, log')
    /\ ChatFailure (fetchGroq w (input_text input)) err
    /\ (aiText resp = defaultText \/ aiText resp = err).
Proof.
  intros Hc Hv Hns.
  destruct (chat_outcome_cases (fetchGroq w (input_text input)))
    as [(err & Hf)|(content & Hs)]; [|destruct (Hns content Hs)].
  destruct (sendTurn_after_failure env input w log err Hc Hv Hf) as (url & H).
  eexists; eexists; exists err. split; [exact H|]. split; [exact Hf|].
  right. reflexivity.
Qed.

Lemma sendTurn_chat_failure_text_witness :
  exists resp log' err,
    sendTurn someEnv hello
      (constantly (Ok {| ok := false; statusText := lit "Bad Gateway";
                         text := Throw Rejected; json := Throw Rejected |})
                  (Throw Rejected)) []
    = (Ok resp, log')
    /\ ChatFailure (Ok {| ok := false; statusText := lit "Bad Gateway";
                          text := Throw Rejected; json := Throw Rejected |}) err
    /\ (aiText resp = defaultText \/ aiText resp = err).
Proof.
  apply (sendTurn_chat_failure_text someEnv hello
           (constantly (Ok {| ok := false; statusText := lit "Bad Gateway";
                              text := Throw Rejected; json := Throw Rejected |})
                       (Throw Rejected)) []);
    [reflexivity | reflexivity |].
  intros content Hs. inversion Hs. simpl in *. discriminate.
Defined.

(** **** C5
    The markdown stripping maps "**bold** and _italic_ and `code`" to
    "bold and italic and code", and "# Heading\n[link](http://x)" to
    "Heading\nlink". *)
Theorem stripMarkdown_examples :
  stripMarkdown (lit "**bold** and _italic_ and `code`")
  = lit "bold and italic and code"
  /\ stripMarkdown (lit "# Heading" ++ [LF] ++ lit "[link](http://x)")
     = lit "Heading" ++ [LF] ++ lit "link".
Proof. split; vm_compute; reflexivity. Qed.

(** **** C6
    For every accepted input and every behaviour of the two providers,
    [sendTurn] returns normally; it asks the speech synthesis once, last,
    and when that call fails the returned [audioUrl] is null. *)
Theorem sendTurn_never_throws env input w log :
  truthy (input_text input) = true ->
  exists resp spoken log',
    sendTurn env input w log = (Ok resp, log' ++ [FalRequest spoken])
    /\ (synthesisFails (falSubscribe w spoken) -> audioUrl resp = None).
Proof.
  intros Hv.
  destruct (getGroqResponse_string env (input_text input) w log)
    as (reply & log1 & Hg).
  destruct (sendTurnResolver_run env input w log _ _ Hg) as (url & Hr & Hnone & _).
  unfold sendTurn. rewrite Hv, Hr.
  eexists; eexists; eexists; split; [reflexivity|]. exact Hnone.
Qed.

Lemma sendTurn_never_throws_witness :
  exists resp spoken log',
    sendTurn someEnv hello
             (constantly (completion (lit "Hi there")) (Throw Rejected)) []
    = (Ok resp, log' ++ [FalRequest spoken])
    /\ (synthesisFails (Throw Rejected) -> audioUrl resp = None).
Proof.
  apply (sendTurn_never_throws someEnv hello
           (constantly (completion (lit "Hi there")) (Throw Rejected)) []).
  reflexivity.
Defined.

(** **** C8
    When either API key is absent (or empty) the module throws while it is
    loaded, so no router exists to serve a request; once the module has
    loaded, no behaviour of the providers makes [sendTurn] throw on an
    accepted input. *)
Theorem missing_key_aborts_startup env :
  (configured env = false -> exists message, loadModule env = Throw (Error message))
  /\ (forall router,
        loadModule env = Ok router ->
        configured env = true
        /\ forall input w log,
             truthy (input_text input) = true ->
             exists resp log', router_sendTurn router input w log = (Ok resp, log')).
Proof.
  unfold loadModule, moduleInit, configured. split.
  - intros H.
    destruct (truthyOpt (FAL_API_KEY env)); simpl in *; [|eauto].
    rewrite H. simpl. eauto.
  - intros router H.
    destruct (truthyOpt (FAL_API_KEY env)); simpl in *; [|discriminate].
    destruct (truthyOpt (GROQ_API_KEY env)); simpl in *; [|discriminate].
    injection H as <-. split; [reflexivity|].
    intros input w log Hv. simpl.
    destruct (getGroqResponse_string env (input_text input) w log)
      as (reply & log1 & Hg).
    destruct (sendTurnResolver_run env input w log _ _ Hg) as (url & Hr & _).
    unfold sendTurn. rewrite Hv, Hr. eauto.
Qed.

Lemma missing_key_aborts_startup_witness :
  (exists message,
      loadModule {| FAL_API_KEY := Some (lit "fal-key"); GROQ_API_KEY := None |}
      = Throw (Error message))
  /\ (exists router,
        loadModule someEnv = Ok router
        /\ exists resp log',
             router_sendTurn router hello
               (constantly (Throw Rejected) (Throw Rejected)) []
             = (Ok resp, log')).
Proof.
  split.
  - apply (proj1 (missing_key_aborts_startup
                    {| FAL_API_KEY := Some (lit "fal-key");
                       GROQ_API_KEY := None |})).
    reflexivity.
  - exists {| router_sendTurn := sendTurn someEnv |}.
    split; [reflexivity|].
    apply (proj2 (missing_key_aborts_startup someEnv)
                 {| router_sendTurn := sendTurn someEnv |} eq_refl).
    reflexivity.
Defined.

Lemma isFailedReply_spec reply :
  isFailedReply (Some reply) = true
  <-> reply = [] \/ startsWith reply errorPrefix = true.
Proof.
  unfold isFailedReply. destruct reply as [|c r]; simpl truthy; simpl negb.
  - split; [left; reflexivity | reflexivity].
  - rewrite orb_false_l. split; [right; assumption | intros [H|H]; [discriminate|exact H]].
Qed.

Lemma isFailedReply_usable reply :
  isFailedReply (Some reply) = negb (isUsableReply (Some reply)).
Proof.
  unfold isFailedReply, isUsableReply.
  destruct (truthy reply), (startsWith reply errorPrefix); reflexivity.
Qed.

(** The two ways [sendTurn] answers, by the reply of the chat helper. *)
Lemma sendTurn_by_reply env input w log log1 reply :
  truthy (input_text input) = true ->
  getGroqResponse env (input_text input) w log = (Ok (Some reply), log1) ->
  exists url,
    (reply <> [] /\ startsWith reply errorPrefix = false ->
     sendTurn env input w log
     = (Ok {| aiText := reply; audioUrl := url |},
        log1 ++ [FalRequest (stripMarkdown reply)]))
    /\ (reply = [] \/ startsWith reply errorPrefix = true ->
        sendTurn env input w log
        = (Ok {| aiText := if truthy reply then reply else defaultText;
                 audioUrl := url |},
           log1 ++ [FalRequest (if truthy reply then reply else defaultText)])).
Proof.
  intros Hv Hg.
  destruct (sendTurnResolver_run env input w log _ _ Hg) as (url & Hr & _).
  exists url. unfold sendTurn. rewrite Hv, Hr. clear Hr.
  unfold plainTextForTts. rewrite isFailedReply_usable.
  split.
  - intros [Hne Hp]. unfold isUsableReply. rewrite Hp.
    destruct reply; [congruence|]. reflexivity.
  - intros H. apply isFailedReply_spec in H.
    rewrite isFailedReply_usable in H.
    destruct (isUsableReply (Some reply)); [discriminate|]. reflexivity.
Qed.

(** **** C4, as the code has it
    When the chat-completion call succeeds with a reply that is not empty
    after trimming and does not start with "Error:", [sendTurn] gives the
    markdown-stripped reply to the speech synthesis and returns the
    unstripped reply as [aiText]; when the reply is empty or starts with
    "Error:", one and the same unstripped text (the reply, or the fixed
    fallback string when the reply is empty) is both returned as [aiText]
    and given to the speech synthesis. *)
Theorem sendTurn_sanitizes_usable_replies env input w log content :
  configured env = true ->
  truthy (input_text input) = true ->
  ChatSuccess (fetchGroq w (input_text input)) content ->
  exists url,
    (trim content <> [] /\ startsWith (trim content) errorPrefix = false ->
     sendTurn env input w log
     = (Ok {| aiText := trim content; audioUrl := url |},
        log ++ [GroqRequest (input_text input);
                FalRequest (stripMarkdown (trim content))]))
    /\ (trim content = [] \/ startsWith (trim content) errorPrefix = true ->
        sendTurn env input w log
        = (Ok {| aiText := if truthy (trim content)
                           then trim content else defaultText;
                 audioUrl := url |},
           log ++ [GroqRequest (input_text input);
                   FalRequest (if truthy (trim content)
                               then trim content else defaultText)])).
Proof.
  intros Hc Hv Hs. apply configured_keys in Hc as [_ Hk].
  pose proof (getGroqResponse_success env _ w log content Hk Hs) as Hg.
  destruct (sendTurn_by_reply env input w log _ _ Hv Hg) as (url & Hu & Hf).
  exists url. split; intros H.
  - rewrite (Hu H), <- app_assoc. reflexivity.
  - rewrite (Hf H), <- app_assoc. reflexivity.
Qed.

Lemma sendTurn_sanitizes_usable_replies_witness :
  exists url,
    sendTurn someEnv hello
      (constantly (completion (lit " **Hi** ")) (Throw Rejected)) []
    = (Ok {| aiText := lit "**Hi**"; audioUrl := url |},
       [GroqRequest (lit "hello"); FalRequest (lit "Hi")]).
Proof.
  destruct (sendTurn_sanitizes_usable_replies someEnv hello
              (constantly (completion (lit " **Hi** ")) (Throw Rejected)) []
              (lit " **Hi** ") eq_refl eq_refl)
    as (url & Hu & _).
  - eapply Completed; try reflexivity. discriminate.
  - exists url. apply Hu. split; [discriminate | reflexivity].
Defined.

(** A completion that starts with "Error:" reaches the speech synthesis
    with its markdown intact, although the chat call succeeded. *)
Lemma error_prefixed_completion_not_sanitized :
  let reply := lit "Error: **x**" in
  let w := constantly (completion reply) (Ok (FalAudio (Some (lit "u")))) in
  ChatSuccess (fetchGroq w (lit "hello")) reply
  /\ sendTurn someEnv hello w []
     = (Ok {| aiText := reply; audioUrl := Some (lit "u") |},
        [GroqRequest (lit "hello"); FalRequest reply])
  /\ stripMarkdown (trim reply) = lit "Error: x"
  /\ FalRequest reply <> FalRequest (stripMarkdown (trim reply)).
Proof.
  repeat split.
  - eapply Completed; try reflexivity. discriminate.
  - vm_compute. discriminate.
Qed.

Lemma getGroqResponse_empty_iff env t w log reply log1 :
  getGroqResponse env t w log = (Ok (Some reply), log1) ->
  (reply = []
   <-> truthyOpt (GROQ_API_KEY env) = true
       /\ exists content,
            ChatSuccess (fetchGroq w t) content /\ trim content = []).
Proof.
  intros Hg. split.
  - revert Hg.
    unfold getGroqResponse, tryCatch, Eff.bind, fetch, await, throw, ret.
    destruct (truthyOpt (GROQ_API_KEY env)); simpl;
      [|intros H E; subst; discriminate].
    destruct (fetchGroq w t) as [resp|e] eqn:Ef; simpl;
      [|intros H E; subst; discriminate].
    destruct (ok resp) eqn:Eok; simpl.
    + destruct (json resp) as [[|[|c cs]]|e] eqn:Ej; simpl;
        try (intros H E; subst; discriminate).
      destruct (message_content c) as [|s|[|]] eqn:Ec; simpl;
        try (intros H E; subst; discriminate).
      destruct s as [|x s']; simpl truthy; cbv iota;
        [intros H E; subst; discriminate|].
      intros H E. injection H as H _. split; [reflexivity|].
      exists (x :: s'). split; [|congruence].
      eapply Completed; eauto. discriminate.
    + destruct (text resp); simpl; intros H E; subst; discriminate.
  - intros (Hk & content & Hs & Ht).
    rewrite (getGroqResponse_success env t w log content Hk Hs) in Hg.
    congruence.
Qed.

Lemma sendTurn_aiText_nonempty env input w log log1 reply :
  truthy (input_text input) = true ->
  getGroqResponse env (input_text input) w log = (Ok (Some reply), log1) ->
  exists resp log2,
    sendTurn env input w log = (Ok resp, log2)
    /\ aiText resp <> []
    /\ (reply = [] -> aiText resp = defaultText).
Proof.
  intros Hv Hg.
  destruct (sendTurn_by_reply env input w log _ _ Hv Hg) as (url & Hu & Hf).
  destruct reply as [|c r].
  - rewrite (Hf (or_introl eq_refl)). eexists; eexists; split; [reflexivity|].
    split; [discriminate | reflexivity].
  - destruct (startsWith (c :: r) errorPrefix) eqn:Ep.
    + rewrite (Hf (or_intror eq_refl)). eexists; eexists; split; [reflexivity|].
      split; [discriminate | discriminate].
    + assert (Hne : c :: r <> []) by discriminate.
      rewrite (Hu (conj Hne eq_refl)).
      eexists; eexists; split; [reflexivity|].
      split; [discriminate | discriminate].
Qed.

(** **** C9, as the code has it
    The chat helper never returns null: for every behaviour of the provider
    it resolves to a string.  That string is empty exactly when the call
    succeeds with a content that is whitespace only (trimming leaves
    nothing); in that case [sendTurn] falls back to its default text.  The
    [aiText] that [sendTurn] returns is never empty. *)
Theorem chat_reply_never_null env input w log :
  truthy (input_text input) = true ->
  exists reply log1 resp log2,
    getGroqResponse env (input_text input) w log = (Ok (Some reply), log1)
    /\ sendTurn env input w log = (Ok resp, log2)
    /\ aiText resp <> []
    /\ (reply = []
        <-> truthyOpt (GROQ_API_KEY env) = true
            /\ exists content,
                 ChatSuccess (fetchGroq w (input_text input)) content
                 /\ trim content = [])
    /\ (reply = [] -> aiText resp = defaultText).
Proof.
  intros Hv.
  destruct (getGroqResponse_string env (input_text input) w log)
    as (reply & log1 & Hg).
  destruct (sendTurn_aiText_nonempty env input w log _ _ Hv Hg)
    as (resp & log2 & Hs & Hne & Hd).
  exists reply, log1, resp, log2.
  split; [exact Hg|]. split; [exact Hs|]. split; [exact Hne|].
  split; [|exact Hd].
  exact (getGroqResponse_empty_iff env _ w log reply log1 Hg).
Qed.

Lemma chat_reply_never_null_witness :
  exists reply log1 resp log2,
    getGroqResponse someEnv (lit "hello")
      (constantly (refusal (lit "Too Many Requests")) (Throw Rejected)) []
    = (Ok (Some reply), log1)
    /\ sendTurn someEnv hello
         (constantly (refusal (lit "Too Many Requests")) (Throw Rejected)) []
       = (Ok resp, log2)
    /\ aiText resp <> []
    /\ (reply = []
        <-> truthyOpt (GROQ_API_KEY someEnv) = true
            /\ exists content,
                 ChatSuccess (refusal (lit "Too Many Requests")) content
                 /\ trim content = [])
    /\ (reply = [] -> aiText resp = defaultText).
Proof.
  apply (chat_reply_never_null someEnv hello
           (constantly (refusal (lit "Too Many Requests")) (Throw Rejected)) []).
  reflexivity.
Defined.

(** A completion made of one space: the chat helper resolves to the empty
    string, and [sendTurn] answers with its default text. *)
Lemma blank_completion_gives_empty_reply :
  let w := constantly (completion [SPACE]) (Throw Rejected) in
  ChatSuccess (fetchGroq w (lit "hello")) [SPACE]
  /\ getGroqResponse someEnv (lit "hello") w []
     = (Ok (Some []), [GroqRequest (lit "hello")])
  /\ sendTurn someEnv hello w []
     = (Ok {| aiText := lit "Sorry, I encountered an error.";
              audioUrl := None |},
        [GroqRequest (lit "hello");
         FalRequest (lit "Sorry, I encountered an error.")]).
Proof.
  repeat split.
  eapply Completed; try reflexivity. discriminate.
Qed.

(** **** C10, as the code has it
    The failure branch of [sendTurn] is taken exactly by the replies that
    are empty or start with "Error:": for those, one unstripped text (the
    reply, or the fixed fallback when the reply is empty) is given to the
    speech synthesis and returned as [aiText]; every other reply is stripped
    of markdown for the speech synthesis and returned unmodified.  The error
    texts of the chat helper ("Error communicating with Groq API: ...",
    "Error sending request to Groq API.", "No response text found from Groq
    API.") are among the latter: they are treated as successful replies. *)
Theorem failure_branch_by_prefix_or_empty env input w log :
  configured env = true ->
  truthy (input_text input) = true ->
  exists reply log1 url,
    getGroqResponse env (input_text input) w log = (Ok (Some reply), log1)
    /\ (isFailedReply (Some reply) = true
        <-> reply = [] \/ startsWith reply errorPrefix = true)
    /\ (reply = [] \/ startsWith reply errorPrefix = true ->
        sendTurn env input w log
        = (Ok {| aiText := if truthy reply then reply else defaultText;
                 audioUrl := url |},
           log1 ++ [FalRequest (if truthy reply then reply else defaultText)]))
    /\ (reply <> [] /\ startsWith reply errorPrefix = false ->
        sendTurn env input w log
        = (Ok {| aiText := reply; audioUrl := url |},
           log1 ++ [FalRequest (stripMarkdown reply)]))
    /\ (forall err,
          ChatFailure (fetchGroq w (input_text input)) err ->
          reply = err
          /\ isFailedReply (Some reply) = false
          /\ sendTurn env input w log
             = (Ok {| aiText := err; audioUrl := url |},
                log ++ [GroqRequest (input_text input);
                        FalRequest (stripMarkdown err)])).
Proof.
  intros Hc Hv.
  destruct (getGroqResponse_string env (input_text input) w log)
    as (reply & log1 & Hg).
  destruct (sendTurn_by_reply env input w log log1 reply Hv Hg)
    as (url & Husable & Hfailed).
  exists reply, log1, url. split; [exact Hg|].
  split; [apply isFailedReply_spec|].
  split; [exact Hfailed|]. split; [exact Husable|].
  intros err Hf.
  pose proof (configured_keys env Hc) as [_ Hk].
  pose proof (getGroqResponse_failure env _ w log err Hk Hf) as Hg'.
  assert (reply = err) as -> by congruence.
  assert (log1 = log ++ [GroqRequest (input_text input)]) as -> by congruence.
  pose proof (failure_text_usable _ _ Hf) as Hu.
  split; [reflexivity|]. split; [exact Hu|].
  assert (Hcase : err <> [] /\ startsWith err errorPrefix = false).
  { destruct (isFailedReply_spec err) as [_ Hback].
    split.
    - intros E. rewrite Hback in Hu by (left; exact E). discriminate.
    - destruct (startsWith err errorPrefix) eqn:Ep; [|reflexivity].
      rewrite Hback in Hu by (right; reflexivity). discriminate. }
  rewrite (Husable Hcase), <- app_assoc. reflexivity.
Qed.

Lemma failure_branch_by_prefix_or_empty_witness :
  exists reply log1 url,
    getGroqResponse someEnv (lit "hello")
      (constantly (refusal (lit "Not_Found")) (Throw Rejected)) []
    = (Ok (Some reply), log1)
    /\ (isFailedReply (Some reply) = true
        <-> reply = [] \/ startsWith reply errorPrefix = true)
    /\ (reply = [] \/ startsWith reply errorPrefix = true ->
        sendTurn someEnv hello
          (constantly (refusal (lit "Not_Found")) (Throw Rejected)) []
        = (Ok {| aiText := if truthy reply then reply else defaultText;
                 audioUrl := url |},
           log1 ++ [FalRequest (if truthy reply then reply else defaultText)]))
    /\ (reply <> [] /\ startsWith reply errorPrefix = false ->
        sendTurn someEnv hello
          (constantly (refusal (lit "Not_Found")) (Throw Rejected)) []
        = (Ok {| aiText := reply; audioUrl := url |},
           log1 ++ [FalRequest (stripMarkdown reply)]))
    /\ (forall err,
          ChatFailure (refusal (lit "Not_Found")) err ->
          reply = err
          /\ isFailedReply (Some reply) = false
          /\ sendTurn someEnv hello
               (constantly (refusal (lit "Not_Found")) (Throw Rejected)) []
             = (Ok {| aiText := err; audioUrl := url |},
                [] ++ [GroqRequest (lit "hello");
                       FalRequest (stripMarkdown err)])).
Proof.
  apply (failure_branch_by_prefix_or_empty someEnv hello
           (constantly (refusal (lit "Not_Found")) (Throw Rejected)) []);
    reflexivity.
Defined.

(** The empty reply takes the failure branch without starting with
    "Error:". *)
Lemma empty_reply_takes_failure_branch :
  let w := constantly (completion [LF]) (Ok (FalAudio (Some (lit "u")))) in
  getGroqResponse someEnv (lit "hello") w []
  = (Ok (Some []), [GroqRequest (lit "hello")])
  /\ isFailedReply (Some []) = true
  /\ startsWith [] errorPrefix = false
  /\ sendTurn someEnv hello w []
     = (Ok {| aiText := defaultText; audioUrl := Some (lit "u") |},
        [GroqRequest (lit "hello"); FalRequest defaultText]).
Proof. repeat split. Qed.

End DebateFacts.

(* ===================================================================== *)
(** ** Facts about the page component *)
(* ===================================================================== *)

Module PageFacts.

Import Page PageVocabulary.

Example playing_probe :
  phase playing = Speaking
  /\ audioUrl (hooks playing) = Some (lit "u")
  /\ audioPaused playing = false.
Proof. repeat split. Qed.

Lemma render_conversation (acts : list Action) :
  forall h, conversation (render h acts) = conversation h ++ appended acts.
Proof.
  unfold render.
  induction acts as [|a acts IH]; intros h; simpl.
  - symmetry. apply app_nil_r.
  - destruct a as [u|c]; simpl; [|apply IH].
    unfold render in IH. rewrite IH.
    destruct u; simpl; try reflexivity.
    rewrite <- app_assoc. reflexivity.
Qed.

Lemma step_recognitionRef s e : recognitionRef (step s e) = recognitionRef s.
Proof. reflexivity. Qed.

Lemma run_recognitionRef events :
  forall s, recognitionRef (run s events) = recognitionRef s.
Proof.
  unfold run. induction events as [|e events IH]; intros s; simpl;
    [reflexivity|]. rewrite IH. apply step_recognitionRef.
Qed.

(** The [onend] callback closes over the first render, where
    [isRecording] is false: it never queues an update. *)
Lemma onend_never_resets supported events :
  handle RecognitionEnd (run (mount supported) events) = [].
Proof.
  unfold handle. rewrite run_recognitionRef.
  destruct supported; reflexivity.
Qed.

Lemma entriesOf_app who a b :
  entriesOf who (a ++ b) = entriesOf who a ++ entriesOf who b.
Proof. unfold entriesOf. apply filter_app. Qed.

(** The user entries an event appends. *)
Lemma handle_user_entries s e :
  recognitionRef s <> None ->
  entriesOf User (appended (handle e s)) = spoken e.
Proof.
  intros Href.
  destruct e as [|i results| | |n data|n| | | |]; simpl;
    try reflexivity.
  - unfold handleMicClick.
    destruct (recognitionRef s); [|reflexivity].
    destruct (isRecording (hooks s)); [reflexivity|].
    destruct (isAiSpeaking (hooks s)); reflexivity.
  - destruct (recognitionRef s); [|congruence].
    unfold onresult, handleUserTurnEnd. simpl.
    destruct (finalTranscript i results) as [|c t] eqn:Ef; simpl truthy;
      cbv iota; [reflexivity|].
    destruct (truthy (trim (c :: t))); reflexivity.
  - destruct (recognitionRef s); reflexivity.
  - destruct (recognitionRef s) as [r|]; [|reflexivity].
    unfold onend. destruct (onend_isRecording r); reflexivity.
Qed.

Lemma step_user_entries s e :
  recognitionRef s <> None ->
  entriesOf User (conversation (hooks (step s e)))
  = entriesOf User (conversation (hooks s)) ++ spoken e.
Proof.
  intros Href. unfold step. simpl.
  rewrite render_conversation, entriesOf_app, handle_user_entries by assumption.
  reflexivity.
Qed.


Lemma phase_speaking s :
  phase s = Speaking ->
  isRecording (hooks s) = false /\ isAiSpeaking (hooks s) = true.
Proof.
  unfold phase.
  destruct (isRecording (hooks s)); [discriminate|].
  destruct (isAiSpeaking (hooks s)); [tauto|discriminate].
Qed.

Lemma audioEffect_cleared before after :
  audioUrl after = None -> audioEffect before after = [].
Proof.
  unfold audioEffect. intros ->.
  destruct (optEqb (audioUrl before) None); reflexivity.
Qed.




(** **** C2, as the code has it
    The response of a turn is applied whenever it arrives, whether or not
    an interruption superseded the turn in between: it appends one
    assistant entry with the reply text, stores the returned audio locator
    and clears the AI-speaking flag, so that the phase becomes [Listening]
    if capture is on and [Idle] otherwise. *)
Theorem response_is_always_applied s n data :
  let s' := step s (TurnSuccess n data) in
  conversation (hooks s')
  = conversation (hooks s) ++ [ {| speaker := Ai; text := Debate.aiText data |} ]
  /\ audioUrl (hooks s') = Debate.audioUrl data
  /\ isAiSpeaking (hooks s') = false
  /\ aiResponse (hooks s') = Debate.aiText data
  /\ phase s' = if isRecording (hooks s) then Listening else Idle.
Proof.
  unfold phase. simpl. repeat split.
Qed.

(** A reply that arrives after the barge-in is appended and played. *)
Lemma stale_response_is_applied :
  let waiting := run (mount true) (firstn 4 bargeIn) in
  let s := run (mount true) bargeIn in
  let s' := step s (TurnSuccess 0 lateReply) in
  phase waiting = AwaitingReply
  /\ s = step waiting MicClick
  /\ phase s = Listening
  /\ requests s = [lit "hi"] /\ settled s = []
  /\ conversation (hooks s) = [ {| speaker := User; text := lit "hi" |} ]
  /\ conversation (hooks s')
     = [ {| speaker := User; text := lit "hi" |};
         {| speaker := Ai; text := lit "late" |} ]
  /\ conversation (hooks s') <> conversation (hooks s)
  /\ calls s' = calls s ++ [AudioSetSrc (lit "u"); AudioPlay]
  /\ phase (step (step (step s MicClick) (TurnSuccess 0 lateReply)) PlayFulfilled)
     = Speaking.
Proof.
  cbv zeta.
  repeat match goal with |- _ /\ _ => split end;
    try (vm_compute; reflexivity).
  vm_compute. discriminate.
Qed.

(** **** C7
    Over any sequence of events, the user entries of the conversation grow
    by exactly one entry per capture event whose final transcript is not
    empty after trimming (the entry carries the trimmed text) and by none
    for a final transcript that is empty or whitespace only; no phase is
    excluded, [Idle] and [Listening] included. *)
Theorem one_user_entry_per_final_transcript events :
  forall s,
    recognitionRef s <> None ->
    entriesOf User (conversation (hooks (run s events)))
    = entriesOf User (conversation (hooks s)) ++ flat_map spoken events.
Proof.
  unfold run.
  induction events as [|e events IH]; intros s Href; simpl.
  - symmetry. apply app_nil_r.
  - rewrite IH by (rewrite step_recognitionRef; exact Href).
    rewrite step_user_entries by exact Href.
    rewrite <- app_assoc. reflexivity.
Qed.

Lemma one_user_entry_per_final_transcript_witness :
  entriesOf User
    (conversation
       (hooks (run (mount true)
                   [ MicClick;
                     RecognitionResult 0 [final (lit " hi ")];
                     RecognitionResult 0 [final [SPACE; LF]];
                     RecognitionResult 0
                       [ {| isFinal := false; transcript := lit "so" |} ];
                     RecognitionResult 1 [final (lit "x"); final (lit "yes")] ])))
  = [] ++ [ {| speaker := User; text := lit "hi" |};
            {| speaker := User; text := lit "yes" |} ].
Proof.
  apply (one_user_entry_per_final_transcript
           [ MicClick;
             RecognitionResult 0 [final (lit " hi ")];
             RecognitionResult 0 [final [SPACE; LF]];
             RecognitionResult 0
               [ {| isFinal := false; transcript := lit "so" |} ];
             RecognitionResult 1 [final (lit "x"); final (lit "yes")] ]
           (mount true)).
  discriminate.
Defined.

End PageFacts.

(* ===================================================================== *)
(** ** Facts about trimming and about the markdown stripping *)
(* ===================================================================== *)

Module TextFacts.

Import View.

Lemma dropWhile_idem p s : dropWhile p (dropWhile p s) = dropWhile p s.
Proof.
  induction s as [|c t IH]; simpl; [reflexivity|].
  destruct (p c) eqn:E; [exact IH|]. simpl. rewrite E. reflexivity.
Qed.

Lemma dropWhile_nil_iff p s : dropWhile p s = [] <-> forallb p s = true.
Proof.
  induction s as [|c t IH]; simpl; [tauto|].
  destruct (p c); simpl; [exact IH|]. split; discriminate.
Qed.

Lemma dropWhile_head p s x t : dropWhile p s = x :: t -> p x = false.
Proof.
  induction s as [|c s' IH]; simpl; [discriminate|].
  destruct (p c) eqn:E; [exact IH|]. intros H. injection H as -> _. exact E.
Qed.

Lemma dropWhile_snoc p l x :
  p x = false -> dropWhile p (l ++ [x]) = dropWhile p l ++ [x].
Proof.
  intros Hx. induction l as [|c l IH]; simpl.
  - rewrite Hx. reflexivity.
  - destruct (p c); [exact IH|reflexivity].
Qed.

(** The shape of a trimmed text that is not empty. *)
Lemma trim_cons s x a :
  trimStart s = x :: a ->
  isTrimmed x = false
  /\ trim s = x :: rev (dropWhile isTrimmed (rev a)).
Proof.
  intros H. pose proof (dropWhile_head _ _ _ _ H) as Hx. split; [exact Hx|].
  unfold trim, trimEnd. rewrite H. simpl rev.
  rewrite dropWhile_snoc by exact Hx.
  rewrite rev_app_distr. reflexivity.
Qed.

Lemma trim_empty_iff s : trim s = [] <-> forallb isTrimmed s = true.
Proof.
  rewrite <- dropWhile_nil_iff. fold (trimStart s).
  destruct (trimStart s) as [|x a] eqn:E.
  - unfold trim. rewrite E. split; reflexivity.
  - destruct (trim_cons s x a E) as [_ ->]. split; discriminate.
Qed.

Lemma trim_idempotent s : trim (trim s) = trim s.
Proof.
  destruct (trimStart s) as [|x a] eqn:E.
  - unfold trim. rewrite E. reflexivity.
  - destruct (trim_cons s x a E) as [Hx Ht]. rewrite Ht.
    unfold trim, trimStart, trimEnd. simpl dropWhile. rewrite Hx.
    simpl rev. rewrite rev_involutive.
    rewrite dropWhile_snoc by exact Hx.
    rewrite dropWhile_idem, rev_app_distr. reflexivity.
Qed.

(** A trimmed text neither starts nor ends with a character that [trim]
    strips. *)
Lemma trim_ends s x t :
  trim s = x :: t ->
  isTrimmed x = false /\ isTrimmed (last (x :: t) x) = false.
Proof.
  intros H.
  destruct (trimStart s) as [|y a] eqn:E.
  - unfold trim in H. rewrite E in H. discriminate.
  - destruct (trim_cons s y a E) as [Hy Ht]. rewrite Ht in H.
    injection H as <- <-. split; [exact Hy|].
    destruct (dropWhile isTrimmed (rev a)) as [|z b] eqn:Ed.
    + exact Hy.
    + change (y :: rev (z :: b)) with ([y] ++ rev (z :: b)).
      simpl rev. rewrite app_assoc, last_last.
      exact (dropWhile_head _ _ _ _ Ed).
Qed.

(** Replacing a character class by nothing filters the text. *)
Lemma replaceFrom_class k s :
  forall prev,
    replaceFrom (Cls k) Nothing 0 prev s
    = filter (fun c => negb (inClass k c)) s.
Proof.
  induction s as [|c t IH]; intros prev; [reflexivity|].
  simpl. unfold execAt. simpl.
  destruct (inClass k c); simpl; rewrite IH; reflexivity.
Qed.

Lemma symbolFree_filter s :
  symbolFree (filter (fun c => negb (inClass (OneOf markdownSymbols) c)) s).
Proof.
  unfold symbolFree. apply Forall_forall. intros c Hc.
  apply filter_In in Hc as [_ Hc]. simpl in Hc.
  apply negb_true_iff in Hc. exact Hc.
Qed.

(** A pattern that matches nowhere in a text leaves it as it is. *)
Lemma replaceFrom_no_match (P : N -> Prop) r p :
  (forall prev s, Forall P s -> execAt r prev s = None) ->
  forall s prev, Forall P s -> replaceFrom r p 0 prev s = s.
Proof.
  intros Hno. induction s as [|c t IH]; intros prev Hs; simpl.
  - rewrite (Hno prev [] Hs). reflexivity.
  - rewrite (Hno prev (c :: t) Hs). inversion Hs; subst.
    rewrite IH by assumption. reflexivity.
Qed.

Lemma plain_char c :
  Regex.mem c markdownSymbols = false ->
  (c =? LBRACKET)%N = false /\ (c =? RBRACKET)%N = false
  /\ (c =? LPAREN)%N = false /\ (c =? RPAREN)%N = false
  /\ (c =? STAR)%N = false /\ (c =? UNDERSCORE)%N = false
  /\ (c =? HASH)%N = false /\ (c =? BACKTICK)%N = false.
Proof.
  unfold Regex.mem, markdownSymbols. simpl. intros H.
  repeat (apply orb_false_iff in H; destruct H as [? H]).
  repeat split; assumption.
Qed.

(** No markdown pattern of [sendTurn] matches inside a text without markdown
    symbols. *)
Lemma patterns_need_symbols r :
  In r [boldStars; italicStar; boldUnderscores; italicUnderscore; inlineCode;
        codeBlock; header; link; symbols] ->
  forall prev s, symbolFree s -> execAt r prev s = None.
Proof.
  intros Hr prev s Hs.
  destruct s as [|c t]; unfold execAt.
  - simpl in Hr.
    repeat (destruct Hr as [<- | Hr]; [destruct prev as [x|]; simpl;
              try destruct (isLineTerminator x); reflexivity|]).
    contradiction.
  - inversion Hs as [|? ? Hc Ht]; subst.
    destruct (plain_char c Hc) as (H1 & H2 & H3 & H4 & H5 & H6 & H7 & H8).
    simpl in Hr.
    repeat (destruct Hr as [<- | Hr];
            [destruct prev as [x|]; simpl; try destruct (isLineTerminator x);
             simpl; unfold Regex.mem; simpl;
             rewrite ?H1, ?H2, ?H3, ?H4, ?H5, ?H6, ?H7, ?H8; reflexivity|]).
    contradiction.
Qed.

Lemma stripMarkdown_symbolFree s : symbolFree (stripMarkdown s).
Proof.
  unfold stripMarkdown, replaceAll, symbols.
  rewrite replaceFrom_class. apply symbolFree_filter.
Qed.

(** **** X1
    Whatever the reply, the text that the markdown stripping produces
    contains none of the characters [ ] ( ) * _ # and backtick. *)
Theorem stripMarkdown_output_symbol_free s : symbolFree (stripMarkdown s).
Proof.
  unfold stripMarkdown, replaceAll, symbols.
  rewrite replaceFrom_class. apply symbolFree_filter.
Qed.

Ltac skip_pattern :=
  match goal with
  | |- context [replaceFrom ?r ?p 0 None ?s] =>
      rewrite (replaceFrom_no_match
                 (fun c => Regex.mem c markdownSymbols = false) r p
                 (patterns_need_symbols r ltac:(simpl; tauto)) s None)
        by assumption
  end.

(** **** X2
    A reply without any of those characters passes through the markdown
    stripping unchanged. *)
Theorem stripMarkdown_keeps_plain_text s :
  symbolFree s -> stripMarkdown s = s.
Proof.
  intros Hs. unfold stripMarkdown, replaceAll.
  do 9 skip_pattern. reflexivity.
Qed.

Lemma stripMarkdown_keeps_plain_text_witness :
  stripMarkdown (lit "Hello, how are you?") = lit "Hello, how are you?".
Proof.
  apply stripMarkdown_keeps_plain_text.
  unfold symbolFree. repeat constructor.
Defined.

(** **** X3
    Stripping twice is the same as stripping once. *)
Theorem stripMarkdown_idempotent s :
  stripMarkdown (stripMarkdown s) = stripMarkdown s.
Proof.
  unfold stripMarkdown at 1. unfold replaceAll.
  pose proof (stripMarkdown_symbolFree s) as Hs.
  do 9 skip_pattern. reflexivity.
Qed.

Lemma manyFrom_In least s n :
  forall m, In m (manyFrom least n s) ->
            s = matched m ++ rest m /\ group1 m = None.
Proof.
  induction n as [|n IHn]; intros m Hm; simpl in Hm.
  - destruct (least <=? 0); [|contradiction].
    destruct Hm as [<-|[]]. split; reflexivity.
  - apply in_app_or in Hm as [Hm|Hm]; [|exact (IHn m Hm)].
    destruct (least <=? S n); [|contradiction].
    destruct Hm as [<-|[]]. cbn [matched rest group1].
    split; [exact (eq_sym (firstn_skipn (S n) s)) | reflexivity].
Qed.

(** A match consumes a prefix of the input. *)
Lemma matchesAt_prefix r :
  forall prev s m, In m (matchesAt r prev s) -> s = matched m ++ rest m.
Proof.
  induction r as [c|k|least k|r IH| |r1 IH1 r2 IH2]; intros prev s m Hm;
    simpl in Hm.
  - destruct s as [|x t]; [contradiction|].
    destruct (x =? c)%N; [|contradiction].
    destruct Hm as [<-|[]]. reflexivity.
  - destruct s as [|x t]; [contradiction|].
    destruct (inClass k x); [|contradiction].
    destruct Hm as [<-|[]]. reflexivity.
  - exact (proj1 (manyFrom_In least s _ m Hm)).
  - apply in_map_iff in Hm as (m' & <- & Hm'). exact (IH prev s m' Hm').
  - destruct prev as [c|]; [destruct (isLineTerminator c)|];
      try contradiction; destruct Hm as [<-|[]]; reflexivity.
  - apply in_flat_map in Hm as (m1 & H1 & Hm).
    apply in_map_iff in Hm as (m2 & <- & H2). simpl.
    rewrite (IH1 _ _ _ H1) at 1. rewrite (IH2 _ _ _ H2) at 1.
    apply app_assoc.
Qed.

(** What the group captured is no longer than the match. *)
Lemma matchesAt_group r :
  forall prev s m g,
    In m (matchesAt r prev s) ->
    group1 m = Some g -> List.length g <= List.length (matched m).
Proof.
  induction r as [c|k|least k|r IH| |r1 IH1 r2 IH2]; intros prev s m g Hm Hg;
    simpl in Hm.
  - destruct s as [|x t]; [contradiction|].
    destruct (x =? c)%N; [|contradiction].
    destruct Hm as [<-|[]]. discriminate.
  - destruct s as [|x t]; [contradiction|].
    destruct (inClass k x); [|contradiction].
    destruct Hm as [<-|[]]. discriminate.
  - rewrite (proj2 (manyFrom_In least s _ m Hm)) in Hg. discriminate.
  - apply in_map_iff in Hm as (m' & <- & Hm'). simpl in *.
    injection Hg as <-. apply Nat.le_refl.
  - destruct prev as [c|]; [destruct (isLineTerminator c)|];
      try contradiction; destruct Hm as [<-|[]]; discriminate.
  - apply in_flat_map in Hm as (m1 & H1 & Hm).
    apply in_map_iff in Hm as (m2 & <- & H2). simpl in *.
    rewrite length_app. unfold orGroup in Hg.
    destruct (group1 m2) as [g2|] eqn:E2.
    + injection Hg as <-. pose proof (IH2 _ _ _ _ H2 E2). lia.
    + pose proof (IH1 _ _ _ _ H1 Hg). lia.
Qed.

Lemma execAt_In r prev s m : execAt r prev s = Some m -> In m (matchesAt r prev s).
Proof.
  unfold execAt. destruct (matchesAt r prev s) as [|m' l]; simpl;
    [discriminate|]. intros H. injection H as ->. left. reflexivity.
Qed.

Lemma expand_length r p prev s m :
  execAt r prev s = Some m ->
  List.length (expand p m) <= List.length (matched m).
Proof.
  intros H. apply execAt_In in H. destruct p; simpl; [|lia].
  destruct (group1 m) as [g|] eqn:E; simpl; [|lia].
  exact (matchesAt_group r prev s m g H E).
Qed.

(** A replacement never makes the text longer. *)
Lemma replaceFrom_length r p s :
  forall skip prev,
    List.length (replaceFrom r p skip prev s) <= List.length s - skip.
Proof.
  induction s as [|c t IH]; intros skip prev; simpl.
  - destruct skip; [|simpl; lia].
    destruct (execAt r prev []) as [m|] eqn:E; [|simpl; lia].
    pose proof (expand_length r p prev [] m E) as Hl.
    apply execAt_In, matchesAt_prefix in E.
    destruct (matched m); [simpl in Hl; lia|discriminate].
  - destruct skip as [|k]; [|apply IH].
    destruct (execAt r prev (c :: t)) as [m|] eqn:E.
    + pose proof (expand_length r p prev _ m E) as Hl.
      apply execAt_In, matchesAt_prefix in E.
      rewrite length_app.
      destruct (matched m) as [|x m'] eqn:Em.
      * simpl in *. pose proof (IH 0 (Some c)). lia.
      * simpl in E. injection E as _ E.
        assert (List.length t = List.length m' + List.length (rest m))
          by (rewrite E at 1; apply length_app).
        pose proof (IH (List.length m') (Some c)). simpl in Hl. lia.
    + simpl. pose proof (IH 0 (Some c)). lia.
Qed.

Lemma replaceAll_length r p s :
  List.length (replaceAll r p s) <= List.length s.
Proof.
  unfold replaceAll. pose proof (replaceFrom_length r p s 0 None). lia.
Qed.

(** **** X4
    The stripped text is never longer than the reply it was made from. *)
Theorem stripMarkdown_never_longer s :
  List.length (stripMarkdown s) <= List.length s.
Proof.
  unfold stripMarkdown.
  repeat (etransitivity; [apply replaceAll_length|]).
  apply Nat.le_refl.
Qed.

End TextFacts.

(* ===================================================================== *)
(** ** More facts about [debate.ts] *)
(* ===================================================================== *)

Module DebateMore.

Import View TextFacts.

(** The chat helper sends one request when the key is set and none
    otherwise. *)
Lemma getGroqResponse_log env t w log :
  exists reply,
    getGroqResponse env t w log
    = (Ok (Some reply),
       log ++ (if truthyOpt (GROQ_API_KEY env) then [GroqRequest t] else [])).
Proof.
  unfold getGroqResponse, tryCatch, Eff.bind, fetch, await, throw, ret.
  destruct (truthyOpt (GROQ_API_KEY env)); simpl;
    [|rewrite app_nil_r; eauto].
  destruct (fetchGroq w t) as [resp|e]; simpl; [|eauto].
  destruct (ok resp); simpl.
  - destruct (json resp) as [[|[|c cs]]|e]; simpl; eauto.
    destruct (message_content c) as [|s|[|]]; simpl; eauto.
    destruct (truthy s); eauto.
  - destruct (text resp); simpl; eauto.
Qed.

(** **** X5
    [sendTurn] refuses an empty text with a bad-request error before any
    provider is contacted.  For every other text it returns normally after
    at most one chat request (exactly one when the chat key is set, carrying
    the user text) followed by exactly one speech-synthesis request. *)
Theorem sendTurn_requests_in_order env input w log :
  exists resp spoken,
    sendTurn env input w log
    = if truthy (input_text input)
      then (Ok resp,
            log ++ (if truthyOpt (GROQ_API_KEY env)
                    then [GroqRequest (input_text input)] else [])
                ++ [FalRequest spoken])
      else (Throw BadRequest, log).
Proof.
  unfold sendTurn. destruct (truthy (input_text input)).
  - destruct (getGroqResponse_log env (input_text input) w log) as (reply & Hg).
    destruct (DebateFacts.sendTurnResolver_run env input w log _ _ Hg)
      as (url & Hr & _).
    rewrite Hr, <- app_assoc. eauto.
  - exists {| aiText := []; audioUrl := None |}, []. reflexivity.
Qed.

(** **** X6
    When the chat key is missing at the time of a request, no chat request
    is sent: the fixed text "Error: Groq API key not configured." is given
    unchanged to the speech synthesis and returned as [aiText]. *)
Theorem sendTurn_without_chat_key env input w log :
  truthyOpt (GROQ_API_KEY env) = false ->
  truthy (input_text input) = true ->
  exists url,
    sendTurn env input w log
    = (Ok {| aiText := lit "Error: Groq API key not configured.";
             audioUrl := url |},
       log ++ [FalRequest (lit "Error: Groq API key not configured.")]).
Proof.
  intros Hk Hv.
  pose proof (DebateFacts.getGroqResponse_no_key env (input_text input) w log Hk)
    as Hg.
  destruct (DebateFacts.sendTurnResolver_run env input w log _ _ Hg)
    as (url & Hr & _).
  exists url. unfold sendTurn. rewrite Hv, Hr. reflexivity.
Qed.

Lemma sendTurn_without_chat_key_witness :
  exists url,
    sendTurn {| FAL_API_KEY := Some (lit "fal-key"); GROQ_API_KEY := Some [] |}
             hello (constantly (completion (lit "Hi")) (Throw Rejected)) []
    = (Ok {| aiText := lit "Error: Groq API key not configured.";
             audioUrl := url |},
       [] ++ [FalRequest (lit "Error: Groq API key not configured.")]).
Proof.
  apply sendTurn_without_chat_key; reflexivity.
Defined.

(** **** X7
    Once the module has loaded, the key check inside the chat helper cannot
    fire: every accepted request sends exactly one chat request with the
    user text and then exactly one speech-synthesis request. *)
Theorem loaded_router_always_asks_chat env router input w log :
  loadModule env = Ok router ->
  truthy (input_text input) = true ->
  exists resp spoken,
    router_sendTurn router input w log
    = (Ok resp, log ++ [GroqRequest (input_text input); FalRequest spoken]).
Proof.
  unfold loadModule, moduleInit. intros Hl Hv.
  destruct (truthyOpt (FAL_API_KEY env)); simpl in Hl; [|discriminate].
  destruct (truthyOpt (GROQ_API_KEY env)) eqn:Hk; simpl in Hl; [|discriminate].
  injection Hl as <-. simpl.
  destruct (getGroqResponse_log env (input_text input) w log) as (reply & Hg).
  rewrite Hk in Hg.
  destruct (DebateFacts.sendTurnResolver_run env input w log _ _ Hg)
    as (url & Hr & _).
  unfold sendTurn. rewrite Hv, Hr, <- app_assoc.
  eexists; eexists; reflexivity.
Qed.

Lemma loaded_router_always_asks_chat_witness :
  exists resp spoken,
    router_sendTurn {| router_sendTurn := sendTurn someEnv |} hello
      (constantly (Throw Rejected) (Throw Rejected)) []
    = (Ok resp, [] ++ [GroqRequest (lit "hello"); FalRequest spoken]).
Proof.
  apply (loaded_router_always_asks_chat someEnv
           {| router_sendTurn := sendTurn someEnv |} hello
           (constantly (Throw Rejected) (Throw Rejected)) []);
    reflexivity.
Defined.

(** **** X8
    The [audioUrl] that [sendTurn] returns is a string exactly when the
    speech synthesis, asked for the spoken text, answers with a string
    [audio.url], and it is then that string. *)
Theorem sendTurn_audioUrl_is_the_synthesis_url env input w log :
  truthy (input_text input) = true ->
  exists resp spoken log',
    sendTurn env input w log = (Ok resp, log' ++ [FalRequest spoken])
    /\ forall u,
         audioUrl resp = Some u
         <-> falSubscribe w spoken = Ok (FalAudio (Some u)).
Proof.
  intros Hv.
  destruct (DebateFacts.getGroqResponse_string env (input_text input) w log)
    as (reply & log1 & Hg).
  destruct (DebateFacts.sendTurnResolver_run env input w log _ _ Hg)
    as (url & Hr & Hnone & Hsome).
  unfold sendTurn. rewrite Hv, Hr.
  eexists; eexists; eexists; split; [reflexivity|].
  intros u. cbn [audioUrl]. split.
  - intros ->.
    destruct (falSubscribe w (plainTextForTts (Some reply)))
      as [[|[u'|]]|e] eqn:E; simpl in Hnone;
      try (specialize (Hnone I); discriminate).
    specialize (Hsome u' eq_refl). congruence.
  - intros E. exact (Hsome u E).
Qed.

Lemma sendTurn_audioUrl_is_the_synthesis_url_witness :
  exists resp spoken log',
    sendTurn someEnv hello
      (constantly (completion (lit "Hi")) (Ok (FalAudio (Some (lit "u"))))) []
    = (Ok resp, log' ++ [FalRequest spoken])
    /\ forall u,
         audioUrl resp = Some u
         <-> Ok (FalAudio (Some (lit "u"))) = Ok (FalAudio (Some u)).
Proof.
  apply (sendTurn_audioUrl_is_the_synthesis_url someEnv hello
           (constantly (completion (lit "Hi"))
                       (Ok (FalAudio (Some (lit "u"))))) []).
  reflexivity.
Defined.

(** **** X9
    A completion that is not blank is returned trimmed: [aiText] is the
    content without the white space and line terminators around it, so it
    neither starts nor ends with such a character and trimming it again
    changes nothing. *)
Theorem sendTurn_returns_trimmed_completion env input w log content :
  configured env = true ->
  truthy (input_text input) = true ->
  ChatSuccess (fetchGroq w (input_text input)) content ->
  trim content <> [] ->
  exists resp log',
    sendTurn env input w log = (Ok resp, log')
    /\ aiText resp = trim content
    /\ trim (aiText resp) = aiText resp
    /\ forall x t,
         aiText resp = x :: t ->
         isTrimmed x = false /\ isTrimmed (last (x :: t) x) = false.
Proof.
  intros Hc Hv Hs Hne.
  destruct (DebateFacts.configured_keys env Hc) as [_ Hk].
  pose proof (DebateFacts.getGroqResponse_success env _ w log content Hk Hs)
    as Hg.
  destruct (DebateFacts.sendTurn_by_reply env input w log _ _ Hv Hg)
    as (url & Hu & Hf).
  assert (Ht : truthy (trim content) = true)
    by (destruct (trim content); [congruence|reflexivity]).
  assert (exists resp log',
             sendTurn env input w log = (Ok resp, log')
             /\ aiText resp = trim content) as (resp & log' & Hr & Ha).
  { destruct (startsWith (trim content) errorPrefix) eqn:Ep.
    - rewrite (Hf (or_intror eq_refl)), Ht. eauto.
    - rewrite (Hu (conj Hne eq_refl)). eauto. }
  exists resp, log'. split; [exact Hr|]. split; [exact Ha|].
  rewrite Ha. split; [apply trim_idempotent|].
  intros x t E. exact (trim_ends content x t E).
Qed.

Lemma sendTurn_returns_trimmed_completion_witness :
  exists resp log',
    sendTurn someEnv hello
      (constantly (completion ([LF] ++ lit " Sure. ")) (Throw Rejected)) []
    = (Ok resp, log')
    /\ aiText resp = trim ([LF] ++ lit " Sure. ")
    /\ trim (aiText resp) = aiText resp
    /\ forall x t,
         aiText resp = x :: t ->
         isTrimmed x = false /\ isTrimmed (last (x :: t) x) = false.
Proof.
  apply (sendTurn_returns_trimmed_completion someEnv hello
           (constantly (completion ([LF] ++ lit " Sure. ")) (Throw Rejected))
           [] ([LF] ++ lit " Sure. ")).
  - reflexivity.
  - reflexivity.
  - eapply Completed; try reflexivity. discriminate.
  - discriminate.
Defined.

Lemma stripMarkdown_length s :
  List.length (stripMarkdown s) <= List.length s.
Proof.
  unfold stripMarkdown.
  repeat (etransitivity; [apply replaceAll_length|]).
  apply Nat.le_refl.
Qed.

(** **** X10
    For every behaviour of the providers, the text spoken and the text
    displayed relate in one of two ways.  Outside the failure branch the
    displayed text is the reply itself and the spoken text is its stripped
    form, free of markdown symbols and no longer than the reply; in the
    failure branch (an empty reply or one starting with "Error:") the spoken
    text is the displayed text. *)
Theorem spoken_text_against_displayed_text env input w log :
  truthy (input_text input) = true ->
  exists reply log1 resp spoken,
    getGroqResponse env (input_text input) w log = (Ok (Some reply), log1)
    /\ sendTurn env input w log = (Ok resp, log1 ++ [FalRequest spoken])
    /\ (isFailedReply (Some reply) = false ->
        aiText resp = reply
        /\ spoken = stripMarkdown reply
        /\ symbolFree spoken
        /\ List.length spoken <= List.length (aiText resp))
    /\ (isFailedReply (Some reply) = true -> spoken = aiText resp).
Proof.
  intros Hv.
  destruct (DebateFacts.getGroqResponse_string env (input_text input) w log)
    as (reply & log1 & Hg).
  destruct (DebateFacts.sendTurnResolver_run env input w log _ _ Hg)
    as (url & Hr & _).
  unfold sendTurn. rewrite Hv, Hr.
  eexists; eexists; eexists; eexists.
  split; [exact Hg|]. split; [reflexivity|].
  cbn [aiText]. split; intros Hf; rewrite Hf.
  - assert (Hp : plainTextForTts (Some reply) = stripMarkdown reply).
    { unfold plainTextForTts.
      rewrite DebateFacts.isFailedReply_usable in Hf.
      apply negb_false_iff in Hf. rewrite Hf. reflexivity. }
    rewrite Hp. split; [reflexivity|]. split; [reflexivity|].
    split; [apply stripMarkdown_symbolFree | apply stripMarkdown_length].
  - reflexivity.
Qed.

Lemma spoken_text_against_displayed_text_witness :
  exists reply log1 resp spoken,
    getGroqResponse someEnv (lit "hello")
      (constantly (completion (lit "# Plan")) (Throw Rejected)) []
    = (Ok (Some reply), log1)
    /\ sendTurn someEnv hello
         (constantly (completion (lit "# Plan")) (Throw Rejected)) []
       = (Ok resp, log1 ++ [FalRequest spoken])
    /\ (isFailedReply (Some reply) = false ->
        aiText resp = reply
        /\ spoken = stripMarkdown reply
        /\ symbolFree spoken
        /\ List.length spoken <= List.length (aiText resp))
    /\ (isFailedReply (Some reply) = true -> spoken = aiText resp).
Proof.
  apply (spoken_text_against_displayed_text someEnv hello
           (constantly (completion (lit "# Plan")) (Throw Rejected)) []).
  reflexivity.
Defined.

End DebateMore.

(* ===================================================================== *)
(** ** More facts about the page component *)
(* ===================================================================== *)

Module PageMore.

Import Page PageVocabulary View TextFacts.

Lemma optEqb_refl a : optEqb a a = true.
Proof.
  destruct a as [x|]; [|reflexivity]. unfold optEqb, Js.eqb.
  destruct (list_eq_dec N.eq_dec x x); [reflexivity|congruence].
Qed.

Lemma optEqb_eq a b : optEqb a b = true -> a = b.
Proof.
  destruct a as [x|], b as [y|]; simpl; try discriminate; [|reflexivity].
  unfold Js.eqb. destruct (list_eq_dec N.eq_dec x y); [congruence|discriminate].
Qed.

Lemma audioEffect_same h h' :
  audioUrl h' = audioUrl h -> audioEffect h h' = [].
Proof. unfold audioEffect. intros ->. rewrite optEqb_refl. reflexivity. Qed.

(** The entries a handler appends, for every event. *)
Lemma handle_appended s e :
  recognitionRef s <> None -> appended (handle e s) = logged e.
Proof.
  intros Href.
  destruct e as [|i results| | |n data|n| | | |]; simpl; try reflexivity.
  - unfold handleMicClick.
    destruct (recognitionRef s); [|reflexivity].
    destruct (isRecording (hooks s)); [reflexivity|].
    destruct (isAiSpeaking (hooks s)); reflexivity.
  - destruct (recognitionRef s); [|congruence].
    unfold onresult, handleUserTurnEnd. simpl.
    destruct (finalTranscript i results) as [|c t] eqn:Ef; simpl truthy;
      cbv iota; [reflexivity|].
    destruct (truthy (trim (c :: t))); reflexivity.
  - destruct (recognitionRef s); reflexivity.
  - destruct (recognitionRef s) as [r|]; [|reflexivity].
    unfold onend. destruct (onend_isRecording r); reflexivity.
Qed.

(** **** X11
    With the recognition instance in place, the conversation after any
    sequence of events is the conversation before it followed, in order, by
    one entry per accepted utterance, one per answered request (the reply
    text) and one per failed request (the fixed error text); nothing is ever
    removed or rewritten. *)
Theorem conversation_is_the_log_of_events events :
  forall s,
    recognitionRef s <> None ->
    conversation (hooks (run s events))
    = conversation (hooks s) ++ flat_map logged events.
Proof.
  unfold run.
  induction events as [|e events IH]; intros s Href; simpl.
  - symmetry. apply app_nil_r.
  - rewrite IH by exact Href.
    unfold step. cbn [hooks].
    rewrite PageFacts.render_conversation, handle_appended by exact Href.
    rewrite <- app_assoc. reflexivity.
Qed.

Lemma conversation_is_the_log_of_events_witness :
  conversation
    (hooks (run (mount true)
                [ MicClick; RecognitionResult 0 [final (lit " hi ")];
                  TurnSuccess 0 lateReply; AudioEnded; TurnError 1 ]))
  = [] ++ [ {| speaker := User; text := lit "hi" |};
            {| speaker := Ai; text := lit "late" |};
            {| speaker := Ai; text := errorText |} ].
Proof.
  apply (conversation_is_the_log_of_events
           [ MicClick; RecognitionResult 0 [final (lit " hi ")];
             TurnSuccess 0 lateReply; AudioEnded; TurnError 1 ]
           (mount true)).
  discriminate.
Defined.

Lemma mutations_app a b : mutations (a ++ b) = mutations a ++ mutations b.
Proof. unfold mutations. apply flat_map_app. Qed.

Lemma audioEffect_mutations h h' : mutations (audioEffect h h') = [].
Proof.
  unfold audioEffect. destruct (optEqb (audioUrl h) (audioUrl h')); [reflexivity|].
  destruct (audioUrl h') as [u|]; [|reflexivity].
  destruct (truthy u); reflexivity.
Qed.

(** The requests a handler sends, for every event. *)
Lemma handle_mutations s e :
  recognitionRef s <> None ->
  mutations (called (handle e s)) = map text (spoken e).
Proof.
  intros Href.
  destruct e as [|i results| | |n data|n| | | |]; simpl; try reflexivity.
  - unfold handleMicClick.
    destruct (recognitionRef s); [|reflexivity].
    destruct (isRecording (hooks s)); [reflexivity|].
    destruct (isAiSpeaking (hooks s)); reflexivity.
  - destruct (recognitionRef s); [|congruence].
    unfold onresult, handleUserTurnEnd. simpl.
    destruct (finalTranscript i results) as [|c t] eqn:Ef; simpl truthy;
      cbv iota; [reflexivity|].
    destruct (truthy (trim (c :: t))); reflexivity.
  - destruct (recognitionRef s); reflexivity.
  - destruct (recognitionRef s) as [r|]; [|reflexivity].
    unfold onend. destruct (onend_isRecording r); reflexivity.
Qed.

Lemma step_requests s e :
  recognitionRef s <> None ->
  requests (step s e) = requests s ++ map text (spoken e).
Proof.
  intros Href. unfold requests, step. cbn [calls].
  fold (mutations (calls s ++ called (handle e s)
                   ++ audioEffect (hooks s) (render (hooks s) (handle e s)))).
  rewrite !mutations_app, audioEffect_mutations, app_nil_r.
  rewrite handle_mutations by exact Href. reflexivity.
Qed.

(** **** X12
    With the recognition instance in place, the page sends exactly one turn
    request per accepted utterance, in the order of the utterances and with
    the trimmed transcript as its text; no other event sends a request. *)
Theorem one_request_per_user_entry events :
  forall s,
    recognitionRef s <> None ->
    requests (run s events)
    = requests s ++ map text (flat_map spoken events).
Proof.
  unfold run.
  induction events as [|e events IH]; intros s Href; simpl.
  - symmetry. apply app_nil_r.
  - rewrite IH by exact Href.
    rewrite step_requests by exact Href.
    rewrite map_app, app_assoc. reflexivity.
Qed.

Lemma one_request_per_user_entry_witness :
  requests (run (mount true)
                [ MicClick; RecognitionResult 0 [final (lit " hi ")];
                  MicClick; TurnSuccess 0 lateReply;
                  RecognitionResult 0 [final [SPACE]];
                  RecognitionResult 0 [final (lit "more")] ])
  = [] ++ map text [ {| speaker := User; text := lit "hi" |};
                     {| speaker := User; text := lit "more" |} ].
Proof.
  apply (one_request_per_user_entry
           [ MicClick; RecognitionResult 0 [final (lit " hi ")];
             MicClick; TurnSuccess 0 lateReply;
             RecognitionResult 0 [final [SPACE]];
             RecognitionResult 0 [final (lit "more")] ]
           (mount true)).
  discriminate.
Defined.

(** Every request a handler sends carries a text that is not empty and is
    trimmed, whatever the state. *)
Lemma handle_mutations_trimmed s e t :
  In t (mutations (called (handle e s))) ->
  truthy t = true /\ trim t = t.
Proof.
  destruct e as [|i results| | |n data|n| | | |]; simpl;
    try contradiction.
  - unfold handleMicClick.
    destruct (recognitionRef s); [|contradiction].
    destruct (isRecording (hooks s)); [contradiction|].
    destruct (isAiSpeaking (hooks s)); contradiction.
  - destruct (recognitionRef s); [|contradiction].
    unfold onresult, handleUserTurnEnd. simpl.
    destruct (truthy (finalTranscript i results)); [|contradiction].
    destruct (truthy (trim (finalTranscript i results))) eqn:Et;
      simpl; [|contradiction].
    intros [<-|[]]. split; [exact Et | apply trim_idempotent].
  - destruct (recognitionRef s); contradiction.
  - destruct (recognitionRef s) as [r|]; [|contradiction].
    unfold onend. destruct (onend_isRecording r); contradiction.
Qed.

Lemma requests_trimmed events :
  forall s,
    Forall (fun t => truthy t = true /\ trim t = t) (requests s) ->
    Forall (fun t => truthy t = true /\ trim t = t) (requests (run s events)).
Proof.
  unfold run.
  induction events as [|e events IH]; intros s Hs; simpl; [exact Hs|].
  apply IH. unfold requests, step. cbn [calls].
  fold (mutations (calls s ++ called (handle e s)
                   ++ audioEffect (hooks s) (render (hooks s) (handle e s)))).
  rewrite !mutations_app, audioEffect_mutations, app_nil_r.
  apply Forall_app. split; [exact Hs|].
  apply Forall_forall. intros t Ht. exact (handle_mutations_trimmed s e t Ht).
Qed.

(** **** X13
    Every request the page ever sends, in a browser with or without speech
    recognition, carries a non-empty trimmed text: the procedure accepts it
    and answers it normally whatever the providers do, so the page never
    triggers the bad-request error. *)
Theorem page_requests_pass_the_schema supported events t env w log :
  In t (requests (run (mount supported) events)) ->
  t <> [] /\ trim t = t
  /\ exists resp log',
       Debate.sendTurn env {| Debate.input_text := t |} w log = (Ok resp, log').
Proof.
  intros Ht.
  assert (Hall : Forall (fun t => truthy t = true /\ trim t = t)
                        (requests (run (mount supported) events))).
  { apply requests_trimmed. destruct supported; constructor. }
  rewrite Forall_forall in Hall. destruct (Hall t Ht) as [Hne Htrim].
  split; [destruct t; [discriminate|congruence]|]. split; [exact Htrim|].
  destruct (DebateFacts.getGroqResponse_string env t w log)
    as (reply & log1 & Hg).
  destruct (DebateFacts.sendTurnResolver_run
              env {| Debate.input_text := t |} w log _ _ Hg) as (url & Hr & _).
  unfold Debate.sendTurn. cbn [Debate.input_text]. rewrite Hne, Hr. eauto.
Qed.

Lemma page_requests_pass_the_schema_witness :
  lit "hi" <> [] /\ trim (lit "hi") = lit "hi"
  /\ exists resp log',
       Debate.sendTurn someEnv {| Debate.input_text := lit "hi" |}
         (constantly (Throw Rejected) (Throw Rejected)) []
       = (Ok resp, log').
Proof.
  apply (page_requests_pass_the_schema true
           [ MicClick; RecognitionResult 0 [final (lit " hi ")] ]).
  left. reflexivity.
Defined.

(** The user entries a handler appends are well formed, whatever the
    state. *)
Lemma handle_appended_wellFormed s e m :
  In m (appended (handle e s)) -> wellFormedEntry m.
Proof.
  unfold wellFormedEntry.
  destruct e as [|i results| | |n data|n| | | |]; simpl;
    try contradiction; try (intros [<-|[]]; discriminate).
  - unfold handleMicClick.
    destruct (recognitionRef s); [|contradiction].
    destruct (isRecording (hooks s)); [contradiction|].
    destruct (isAiSpeaking (hooks s)); contradiction.
  - destruct (recognitionRef s); [|contradiction].
    unfold onresult, handleUserTurnEnd. simpl.
    destruct (truthy (finalTranscript i results)); [|contradiction].
    destruct (trim (finalTranscript i results)) as [|c t] eqn:Et;
      simpl; [contradiction|].
    intros [<-|[]] _. simpl. split; [discriminate|].
    rewrite <- Et. apply trim_idempotent.
  - destruct (recognitionRef s); contradiction.
  - destruct (recognitionRef s) as [r|]; [|contradiction].
    unfold onend. destruct (onend_isRecording r); contradiction.
Qed.

(** **** X14
    Every user entry of the conversation, at any time after the mount, has a
    text that is not empty and carries no white space or line terminator at
    either end. *)
Theorem user_entries_are_trimmed supported events :
  Forall wellFormedEntry
         (conversation (hooks (run (mount supported) events))).
Proof.
  assert (H : forall s, Forall wellFormedEntry (conversation (hooks s)) ->
                        Forall wellFormedEntry
                               (conversation (hooks (run s events)))).
  { unfold run. induction events as [|e events IH]; intros s Hs; simpl;
      [exact Hs|].
    apply IH. unfold step. cbn [hooks].
    rewrite PageFacts.render_conversation. apply Forall_app.
    split; [exact Hs|]. apply Forall_forall.
    intros m Hm. exact (handle_appended_wellFormed s e m Hm). }
  apply H. destruct supported; constructor.
Qed.

(** **** X15
    In a browser without speech recognition nothing is ever captured or
    sent: after any sequence of events the button is disabled, capture is
    off, the status line reads "Voice input not supported", the
    conversation holds no user entry and no turn request has been sent. *)
Theorem unsupported_browser_sends_nothing events :
  let s := run (mount false) events in
  disabled (micButton s) = true
  /\ isRecording (hooks s) = false
  /\ statusLine s = lit "Voice input not supported"
  /\ entriesOf User (conversation (hooks s)) = []
  /\ requests s = [].
Proof.
  assert (H : forall s,
             recognitionRef s = None ->
             isRecording (hooks s) = false ->
             isSpeechApiSupported (hooks s) = false ->
             entriesOf User (conversation (hooks s)) = [] ->
             requests s = [] ->
             let s' := run s events in
             recognitionRef s' = None
             /\ isRecording (hooks s') = false
             /\ isSpeechApiSupported (hooks s') = false
             /\ entriesOf User (conversation (hooks s')) = []
             /\ requests s' = []).
  { unfold run. induction events as [|e events IH];
      intros s Href Hrec Hsup Hconv Hreq; simpl; [tauto|].
    apply IH; clear IH.
    - exact Href.
    - unfold step, handle, handleMicClick. cbn [hooks]. rewrite Href.
      destruct e; simpl; exact Hrec.
    - unfold step, handle, handleMicClick. cbn [hooks]. rewrite Href.
      destruct e; simpl; exact Hsup.
    - unfold step. cbn [hooks].
      rewrite PageFacts.render_conversation, PageFacts.entriesOf_app, Hconv.
      unfold handle, handleMicClick. rewrite Href.
      destruct e; reflexivity.
    - unfold requests, step. cbn [calls].
      fold (mutations (calls s ++ called (handle e s)
                       ++ audioEffect (hooks s) (render (hooks s) (handle e s)))).
      rewrite !mutations_app, audioEffect_mutations, app_nil_r.
      change (mutations (calls s)) with (requests s). rewrite Hreq.
      unfold handle, handleMicClick. rewrite Href.
      destruct e; reflexivity. }
  intros s.
  destruct (H (mount false) eq_refl eq_refl eq_refl eq_refl eq_refl)
    as (Href & Hrec & Hsup & Hconv & Hreq).
  fold s in Href, Hrec, Hsup, Hconv, Hreq.
  unfold micButton, statusLine. cbn [disabled].
  rewrite Href, Hsup. repeat split; assumption.
Qed.

Lemma state_eta s :
  {| hooks := hooks s; recognitionRef := recognitionRef s;
     calls := calls s; settled := settled s |} = s.
Proof. destruct s; reflexivity. Qed.

(** An event whose handler does nothing leaves the component as it is. *)
Lemma step_idle s e :
  handle e s = [] -> settle e (settled s) = settled s -> step s e = s.
Proof.
  intros Hh Hs. unfold step. rewrite Hh, Hs. unfold render. simpl.
  rewrite audioEffect_same by reflexivity. rewrite app_nil_r.
  apply state_eta.
Qed.

(** **** X16
    The end of a recognition session changes nothing, whatever happened
    since the mount: the [onend] callback was built by the first render and
    tests that render's [isRecording], which is false, so the recording flag
    is not reset by it. *)
Theorem recognition_end_changes_nothing supported events :
  step (run (mount supported) events) RecognitionEnd
  = run (mount supported) events.
Proof.
  apply step_idle; [|reflexivity].
  apply PageFacts.onend_never_resets.
Qed.

Lemma builtByFirstRender_run supported events :
  builtByFirstRender (run (mount supported) events).
Proof.
  unfold builtByFirstRender. rewrite PageFacts.run_recognitionRef.
  destruct supported; reflexivity.
Qed.

Lemma step_keeps_isRecording s e :
  builtByFirstRender s ->
  stopsCapture e = false ->
  isRecording (hooks (step s e)) = isRecording (hooks s).
Proof.
  unfold builtByFirstRender. intros Hb He.
  destruct e as [|i results| | |n data|n| | | |]; try discriminate;
    try reflexivity; unfold step, handle; cbn [hooks].
  - destruct (recognitionRef s); [|reflexivity].
    unfold onresult, handleUserTurnEnd.
    destruct (truthy (finalTranscript i results)); [|reflexivity].
    destruct (truthy (trim (finalTranscript i results))); reflexivity.
  - destruct (recognitionRef s) as [r|]; [|reflexivity].
    unfold onend. rewrite Hb. reflexivity.
Qed.

(** **** X17
    After the mount, the recording flag changes only through a click on the
    microphone button or a recognition error: final transcripts, the end of
    the recognition session, replies and playback events all leave it as it
    is. *)
Theorem only_click_or_error_changes_isRecording supported before events :
  forallb (fun e => negb (stopsCapture e)) events = true ->
  isRecording (hooks (run (run (mount supported) before) events))
  = isRecording (hooks (run (mount supported) before)).
Proof.
  pose proof (builtByFirstRender_run supported before) as Hb.
  generalize dependent (run (mount supported) before).
  unfold run. induction events as [|e events IH]; intros s Hb Hev; simpl;
    [reflexivity|].
  simpl in Hev. apply andb_prop in Hev as [He Hev].
  apply negb_true_iff in He.
  rewrite IH; [apply step_keeps_isRecording; assumption| |exact Hev].
  unfold builtByFirstRender. rewrite PageFacts.step_recognitionRef. exact Hb.
Qed.

Lemma only_click_or_error_changes_isRecording_witness :
  isRecording
    (hooks (run (run (mount true) [MicClick])
                [ RecognitionResult 0 [final (lit "hi")]; RecognitionEnd;
                  TurnSuccess 0 lateReply; PlayFulfilled; AudioEnded ]))
  = isRecording (hooks (run (mount true) [MicClick])).
Proof.
  apply (only_click_or_error_changes_isRecording true [MicClick]
           [ RecognitionResult 0 [final (lit "hi")]; RecognitionEnd;
             TurnSuccess 0 lateReply; PlayFulfilled; AudioEnded ]).
  reflexivity.
Defined.

Lemma plays_app a b : plays (a ++ b) = plays a + plays b.
Proof. unfold plays. rewrite filter_app. apply length_app. Qed.

Ltac no_new_audio :=
  first [ rewrite audioEffect_same by reflexivity
        | rewrite PageFacts.audioEffect_cleared by reflexivity ];
  reflexivity.

(** **** X18
    Playback is started by one kind of event only: a reply whose audio
    locator is a non-empty string different from the current one.  Such a
    reply calls [play()] exactly once; every other event, a reply that
    repeats the current locator included, calls it not at all. *)
Theorem playback_starts_only_on_new_audio s e :
  plays (calls (step s e))
  = plays (calls s) + (if bringsNewAudio s e then 1 else 0).
Proof.
  unfold step. cbn [calls]. rewrite !plays_app. f_equal.
  destruct e as [|i results| | |n data|n| | | |]; unfold handle;
    cbn [bringsNewAudio]; try no_new_audio.
  - unfold handleMicClick.
    destruct (recognitionRef s); [|no_new_audio].
    destruct (isRecording (hooks s)); [no_new_audio|].
    destruct (isAiSpeaking (hooks s)); no_new_audio.
  - destruct (recognitionRef s); [|no_new_audio].
    unfold onresult, handleUserTurnEnd.
    destruct (truthy (finalTranscript i results)); [|no_new_audio].
    destruct (truthy (trim (finalTranscript i results))); no_new_audio.
  - destruct (recognitionRef s); no_new_audio.
  - destruct (recognitionRef s) as [r|]; [|no_new_audio].
    unfold onend. destruct (onend_isRecording r); no_new_audio.
  - unfold audioEffect. simpl.
    destruct (optEqb (audioUrl (hooks s)) (Debate.audioUrl data));
      [rewrite andb_false_r; reflexivity|].
    rewrite andb_true_r.
    destruct (Debate.audioUrl data) as [u|]; [|reflexivity].
    simpl. destruct (truthy u); reflexivity.
Qed.



Lemma supported_run events :
  forall s,
    isSpeechApiSupported (hooks (run s events))
    = isSpeechApiSupported (hooks s).
Proof.
  unfold run. induction events as [|e events IH]; intros s; simpl;
    [reflexivity|]. rewrite IH. clear IH.
  unfold step, handle. cbn [hooks].
  destruct e as [|i results| | |n data|n| | | |]; try reflexivity.
  - unfold handleMicClick.
    destruct (recognitionRef s); [|reflexivity].
    destruct (isRecording (hooks s)); [reflexivity|].
    destruct (isAiSpeaking (hooks s)); reflexivity.
  - destruct (recognitionRef s); [|reflexivity].
    unfold onresult, handleUserTurnEnd.
    destruct (truthy (finalTranscript i results)); [|reflexivity].
    destruct (truthy (trim (finalTranscript i results))); reflexivity.
  - destruct (recognitionRef s); reflexivity.
  - destruct (recognitionRef s) as [r|]; [|reflexivity].
    unfold onend. destruct (onend_isRecording r); reflexivity.
Qed.

(** **** X20
    In a browser with speech recognition the button stays enabled and the
    status line follows the phase after every sequence of events: it reads
    "Listening..." while capture is on (also when a reply is awaited or
    played at the same time), "AI Speaking..." while only the AI-speaking
    flag is set, and "Ready" otherwise. *)
Theorem status_line_follows_phase events :
  let s := run (mount true) events in
  disabled (micButton s) = false
  /\ statusLine s
     = match phase s with
       | Listening => lit "Listening..."
       | AwaitingReply | Speaking => lit "AI Speaking..."
       | Idle => lit "Ready"
       end.
Proof.
  intros s. unfold micButton, statusLine, phase. cbn [disabled].
  unfold s. rewrite PageFacts.run_recognitionRef, supported_run.
  split; [reflexivity|]. cbn [mount hooks applyUpdate isSpeechApiSupported negb].
  destruct (isRecording _); [reflexivity|].
  destruct (isAiSpeaking _); [|reflexivity].
  destruct (isLoading _); reflexivity.
Qed.

(** **** X21
    With the recognition instance in place, a capture event leaves the
    conversation as it is exactly when its final transcript consists of
    white space and line terminators only (the empty transcript of an
    interim result included); otherwise it appends one user entry and sends
    one request, both with the trimmed transcript. *)
Theorem blank_transcripts_are_dropped s i results :
  recognitionRef s <> None ->
  let s' := step s (RecognitionResult i results) in
  let t := finalTranscript i results in
  (forallb isTrimmed t = true ->
   conversation (hooks s') = conversation (hooks s)
   /\ requests s' = requests s)
  /\ (forallb isTrimmed t = false ->
      conversation (hooks s')
      = conversation (hooks s) ++ [ {| speaker := User; text := trim t |} ]
      /\ requests s' = requests s ++ [trim t]).
Proof.
  intros Href. cbv zeta.
  assert (Hc : conversation (hooks (step s (RecognitionResult i results)))
               = conversation (hooks s) ++ spoken (RecognitionResult i results)).
  { unfold step. cbn [hooks].
    rewrite PageFacts.render_conversation, handle_appended by exact Href.
    reflexivity. }
  rewrite Hc, step_requests by exact Href. unfold spoken.
  split; intros Hb.
  - apply trim_empty_iff in Hb. rewrite Hb. simpl.
    rewrite !app_nil_r. split; reflexivity.
  - destruct (trim (finalTranscript i results)) as [|c r] eqn:Et.
    + apply trim_empty_iff in Et. congruence.
    + split; reflexivity.
Qed.

Lemma blank_transcripts_are_dropped_witness :
  let s := run (mount true) [MicClick] in
  let s' := step s (RecognitionResult 0 [final [SPACE; TAB; LF]]) in
  conversation (hooks s') = conversation (hooks s)
  /\ requests s' = requests s.
Proof.
  apply (proj1 (blank_transcripts_are_dropped
                  (run (mount true) [MicClick]) 0 [final [SPACE; TAB; LF]]
                  ltac:(discriminate))).
  reflexivity.
Defined.

End PageMore.
